(** * pybind11/detail/eigen_tensor.h: conversion between Eigen tensors and
      NumPy arrays

    A shallow embedding of the two type casters of [eigen_tensor.h]
    (the caster of an owning tensor type and the caster of
    [Eigen::TensorMap]) together with the helpers they use, and the
    properties of loading and casting proved about them.

    Memory is a finite map from addresses to cells; a cell is an element
    buffer, a tensor object or a tensor-map object.  Exceptions raised by
    [pybind11_fail] and invalid memory accesses are results of their own,
    distinct from a normal return. *)

From Stdlib Require Import ZArith String List Bool Lia.
From stdpp Require Import base option list gmap pretty.

Local Open Scope Z_scope.

(** ** Compile-time facts of a tensor type *)

(** [Eigen::RowMajor] / [Eigen::ColMajor]: the value of [T::Layout]. *)
Inductive layout := RowMajor | ColMajor.

(** The element type of a tensor ([T::Scalar]) and the element-type tag of
    an array ([a.dtype()]); [dtype::of<Scalar>()] is the tag of the scalar
    itself. *)
Inductive dtype := int32 | int64 | float32 | float64.

#[global] Instance layout_eq_dec : EqDecision layout.
Proof. solve_decision. Defined.

#[global] Instance dtype_eq_dec : EqDecision dtype.
Proof. solve_decision. Defined.

(** The [IndexType] of a tensor type, which is its [T::Index]: a signed
    integer type of the given width.  [Eigen::DenseIndex], the default, is
    [std::ptrdiff_t]; [int] and [short] are narrower. *)
Inductive index_type := signed_index (bits : positive).

Definition DenseIndex : index_type := signed_index 64.

(** Half the number of values of an index type: the least value is
    [- index_half], the greatest [index_half - 1]. *)
Definition index_half (ix : index_type) : Z :=
  match ix with
  | signed_index bits => 2 ^ (Z.pos bits - 1)
  end.

(** The conversion of an integer (an [ssize_t] extent of an array) to an
    index type: the value of that type congruent to it modulo the number of
    values of the type, which is what the language prescribes since C++20
    and what the compilers did before.  A value of the type is left as it
    is. *)
Definition to_index (ix : index_type) (z : Z) : Z :=
  (z + index_half ix) mod (2 * index_half ix) - index_half ix.

(** The two families of tensor types for which [eigen_tensor_helper] is
    specialised: [Eigen::Tensor<Scalar_, NumIndices_, Options_, IndexType>]
    and [Eigen::TensorFixedSize<Scalar_, Eigen::Sizes<Indices...>, Options_,
    IndexType>]. *)
Inductive tensor_type :=
| Tensor (Scalar_ : dtype) (NumIndices_ : nat) (Options_ : layout)
    (IndexType : index_type)
| TensorFixedSize (Scalar_ : dtype) (Indices : list Z) (Options_ : layout)
    (IndexType : index_type).

Definition Scalar (T : tensor_type) : dtype :=
  match T with
  | Tensor s _ _ _ => s
  | TensorFixedSize s _ _ _ => s
  end.

Definition NumIndices (T : tensor_type) : nat :=
  match T with
  | Tensor _ n _ _ => n
  | TensorFixedSize _ dims _ _ => length dims
  end.

Definition Layout (T : tensor_type) : layout :=
  match T with
  | Tensor _ _ o _ => o
  | TensorFixedSize _ _ o _ => o
  end.

(** [T::Index] *)
Definition Index (T : tensor_type) : index_type :=
  match T with
  | Tensor _ _ _ ix => ix
  | TensorFixedSize _ _ _ ix => ix
  end.

(** ** Flag bits of an array *)

(** Modelled from the spec: the flag constants [array::c_style],
    [array::f_style] and [NPY_ARRAY_WRITEABLE_] are declared in [numpy.h],
    which is not part of this unit.  The spec's foreign array exposes a
    layout flag (row-major or column-major) and a writeable flag; the values
    are those of NumPy's C_CONTIGUOUS, F_CONTIGUOUS and WRITEABLE bits. *)
Definition c_style : Z := 0x0001.
Definition f_style : Z := 0x0002.
Definition NPY_ARRAY_WRITEABLE_ : Z := 0x0400.

(** [compute_array_flag_from_tensor<T>()] *)
Definition compute_array_flag_from_tensor (T : tensor_type) : Z :=
  match Layout T with
  | RowMajor => c_style
  | ColMajor => f_style
  end.

(** ** eigen_tensor_helper *)

(** [operator==] of two [std::array]s of one length: the elements are
    compared position by position.  The two arguments have the same length
    by their type; on lists of different lengths the comparison is false. *)
Fixpoint std_array_eq (x y : list Z) : bool :=
  match x, y with
  | [], [] => true
  | a :: x', b :: y' => (a =? b) && std_array_eq x' y'
  | _, _ => false
  end.

(** A tensor object: its dimensions and the pointer to its elements
    ([None] is the null pointer of a default-constructed or moved-from
    dynamic tensor). *)
Record tensor := mk_tensor {
  m_dimensions : list Z;
  m_data : option positive
}.

(** [eigen_tensor_helper<T>::get_shape(f)]: the dimensions of the object for
    a dynamic tensor, the constant [Indices...] for a fixed-size one.  The
    result is a [std::array] of [T::Index]: the dimensions of a dynamic
    tensor are stored in that type, and the braces around [Indices...]
    admit no narrowing, so a fixed-size type one of whose [Indices] is not
    a value of its index type does not compile. *)
Definition get_shape (T : tensor_type) (f : tensor) : list Z :=
  match T with
  | Tensor _ _ _ _ => m_dimensions f
  | TensorFixedSize _ dims _ _ => dims
  end.

(** [eigen_tensor_helper<T>::is_correct_shape(shape)] *)
Definition is_correct_shape (T : tensor_type) (shape : list Z) : bool :=
  match T with
  | Tensor _ _ _ _ => true
  | TensorFixedSize _ dims _ _ => std_array_eq dims shape
  end.

(** ** Memory *)

(** A cell of memory: the elements of a buffer (of a NumPy array or of a
    tensor), a tensor object, or an [Eigen::TensorMap] object. *)
Inductive cell :=
| Buffer (elems : list Z)
| TensorObj (t : tensor)
| TensorMapObj (t : tensor).

Abbreviation store := (gmap positive cell).

(** The outcome of running a piece of the caster: a normal return with the
    memory it leaves, the exception thrown by [pybind11_fail], or an access
    to memory that holds no object of the expected kind. *)
Inductive result (A : Type) :=
| Returned (a : A) (h : store)
| Failed (msg : string)
| Undefined.

Arguments Returned {A} a h.
Arguments Failed {A} msg.
Arguments Undefined {A}.

Definition M (A : Type) : Type := store → result A.

Definition ret {A} (a : A) : M A := λ h, Returned a h.

Definition bind {A B} (m : M A) (k : A → M B) : M B :=
  λ h, match m h with
       | Returned a h' => k a h'
       | Failed msg => Failed msg
       | Undefined => Undefined
       end.

#[global] Instance M_ret : MRet M := @ret.
#[global] Instance M_bind : MBind M := λ A B k m, bind m k.

(** [pybind11_fail(msg)]: throws, never returns. *)
Definition pybind11_fail {A} (msg : string) : M A := λ _, Failed msg.

(** A new allocation lives at an address no cell has yet. *)
Definition alloc (c : cell) : M positive :=
  λ h, let p := fresh (dom h) in Returned p (<[p := c]> h).

(** Overwriting the object at an address. *)
Definition write (p : positive) (c : cell) : M unit :=
  λ h, Returned tt (<[p := c]> h).

(** [*src] for a pointer to a tensor. *)
Definition get_tensor (src : positive) : M tensor :=
  λ h, match h !! src with
       | Some (TensorObj t) => Returned t h
       | _ => Undefined
       end.

(** [*src] for a pointer to a tensor map. *)
Definition get_tensor_map (src : positive) : M tensor :=
  λ h, match h !! src with
       | Some (TensorMapObj t) => Returned t h
       | _ => Undefined
       end.

(** The number of elements of a tensor or array of the given shape. *)
Definition numel (shape : list Z) : nat := Z.to_nat (fold_right Z.mul 1 shape).

(** Reading [n] consecutive elements through a data pointer; the read is
    undefined unless the pointer addresses a buffer of at least [n]
    elements. *)
Definition read_elems (ptr : option positive) (n : nat) : M (list Z) :=
  λ h, match ptr with
       | Some p =>
           match h !! p with
           | Some (Buffer l) =>
               if (n <=? length l)%nat then Returned (take n l) h else Undefined
           | _ => Undefined
           end
       | None => Undefined
       end.

(** ** The array objects of the host runtime *)

(** The destructor callback of a capsule: the one [cast_impl] registers for
    [move] (destroy the tensor and give the memory back to the aligned
    allocator) or for [take_ownership] (plain [delete]). *)
Inductive deleter := aligned_destroy | plain_delete.

(** A [handle]: a possibly null reference to an object of the host
    runtime. *)
Definition handle := option nat.

(** What an array is bound to ([parent_object] in [cast_impl]): nothing
    (a null [object]), a capsule holding a pointer and its destructor,
    the [None] object, or another object of the host runtime. *)
Inductive owner :=
| no_owner
| capsule (ptr : positive) (d : deleter)
| none_object
| borrowed (obj : nat).

(** [reinterpret_borrow<object>(parent)] *)
Definition reinterpret_borrow (parent : handle) : owner :=
  match parent with
  | Some o => borrowed o
  | None => no_owner
  end.

#[global] Instance deleter_eq_dec : EqDecision deleter.
Proof. solve_decision. Defined.

#[global] Instance owner_eq_dec : EqDecision owner.
Proof. solve_decision. Defined.

(** An array object: its flags, element-type tag, shape, data pointer and
    the object it is bound to. *)
Record array := mk_array {
  flags : Z;
  dtype_ : dtype;
  shape : list Z;
  data : positive;
  base : owner
}.

Definition ndim (a : array) : nat := length (shape a).

(** The writeable flag of an array: bit 10 of its flags, the bit of
    [NPY_ARRAY_WRITEABLE_]. *)
Definition writeable (a : array) : bool := Z.testbit (flags a) 10.

(** Modelled from the spec: the constructor
    [array_t<Scalar, ExtraFlags>(shape, ptr, base)] of [numpy.h] is not part
    of this unit.  By the spec it wraps [(shape, rawPointer, ownerOrCapsule)]
    into a new handle: with an empty owner the handle gets a new independent
    buffer into which the data is copied; with a capsule or an existing
    object as owner it aliases the buffer at [ptr] and is bound to that
    owner.  The new handle has the element type and the layout flag of the
    tensor type and is writeable, which is why [cast_impl] only ever clears
    the writeable flag.  Without a data pointer there is nothing to alias or
    to copy: the handle gets a new buffer of its own, whose contents are left
    unspecified (zeros here). *)
Definition array_t_ctor (T : tensor_type) (shape : list Z)
    (ptr : option positive) (base : owner) : M array :=
  let fl := Z.lor (compute_array_flag_from_tensor T) NPY_ARRAY_WRITEABLE_ in
  match ptr with
  | Some p =>
      match base with
      | no_owner =>
          elems ← read_elems (Some p) (numel shape);
          b ← alloc (Buffer elems);
          ret (mk_array fl (Scalar T) shape b no_owner)
      | _ => ret (mk_array fl (Scalar T) shape p base)
      end
  | None =>
      b ← alloc (Buffer (replicate (numel shape) 0));
      ret (mk_array fl (Scalar T) shape b no_owner)
  end.

(** [array_proxy(result.ptr())->flags &= ~NPY_ARRAY_WRITEABLE_] *)
Definition clear_writeable (a : array) : array :=
  mk_array (Z.land (flags a) (Z.lnot NPY_ARRAY_WRITEABLE_))
           (dtype_ a) (shape a) (data a) (base a).

(** The value of [return_value_policy] a cast is called with: one of the
    seven enumerators, or a value of the enumeration type that is none of
    them. *)
Inductive return_value_policy :=
| automatic
| automatic_reference
| take_ownership
| copy
| move
| reference
| reference_internal
| unrecognized (raw : Z).

#[global] Instance return_value_policy_eq_dec : EqDecision return_value_policy.
Proof. solve_decision. Defined.

(** How the source of a cast is passed: a temporary ([Type &&]), an lvalue
    reference ([Type &]) or a pointer ([Type *]); each comes in a const and
    a non-const overload. *)
Inductive value_category := rvalue | lvalue | pointer.

(** ** type_caster<Type>: the caster of an owning tensor type *)

Module type_caster.

(** [value = Eigen::TensorMap<Type>(a.data(), shape)]: the assignment
    evaluates the map, element by element, into storage of the tensor's
    own; [self] is the address of the caster's [value]. *)
Definition assign_from_map (self : positive) (ptr : positive)
    (shape : list Z) : M unit :=
  _ ← get_tensor self;
  elems ← read_elems (Some ptr) (numel shape);
  b ← alloc (Buffer elems);
  write self (TensorObj (mk_tensor shape (Some b))).

(** Modelled from the spec: the constructor
    [array_t<Scalar, ExtraFlags>(object)] of [numpy.h], which makes the
    array [a] of the handle [src] (and may convert it, or refuse it), is not
    part of this unit.  By the spec the compatibility of the element type on
    the owning path is resolved by the adapter and is already-decided input
    of the load: the array the load works on is the one it is handed. *)
Definition array_t_of (T : tensor_type) (src : array) : M array := ret src.

(** [bool load(handle src, bool convert)], with the constructor of
    [array_t] as the parameter [array_t_].  The extents are copied into a
    [std::array<Type::Index, NumIndices>], which converts each of them to
    the index type of the tensor. *)
Definition load_with (array_t_ : tensor_type → array → M array)
    (T : tensor_type) (self : positive) (src : array) (convert : bool)
    : M bool :=
  a ← array_t_ T src;
  if negb (ndim a =? NumIndices T)%nat then ret false
  else
    let shape := to_index (Index T) <$> take (NumIndices T) (shape a) in
    if negb (is_correct_shape T shape) then ret false
    else
      _ ← assign_from_map self (data a) shape;
      ret true.

Definition load : tensor_type → positive → array → bool → M bool :=
  load_with array_t_of.

(** [::new (allocator.allocate(1)) Type(std::move( *src))]: a dynamic
    tensor hands its buffer over to the new object and is left empty; a
    fixed-size tensor keeps its elements inside the object, so the new
    object holds a copy of them. *)
Definition move_construct (T : tensor_type) (src : positive) : M positive :=
  t ← get_tensor src;
  match T with
  | Tensor _ n _ _ =>
      p ← alloc (TensorObj t);
      _ ← write src (TensorObj (mk_tensor (replicate n 0) None));
      ret p
  | TensorFixedSize _ dims _ _ =>
      elems ← read_elems (m_data t) (numel dims);
      b ← alloc (Buffer elems);
      alloc (TensorObj (mk_tensor dims (Some b)))
  end.

(** [template <typename C> handle cast_impl(C *src, policy, parent)];
    [C_const] is [std::is_const<C>::value]. *)
Definition cast_impl (T : tensor_type) (C_const : bool) (src : positive)
    (policy : return_value_policy) (parent : handle) : M array :=
  '(src, parent_object, writeable) ←
    match policy with
    | move =>
        if C_const then pybind11_fail "Cannot move from a constant reference"
        else
          copy_ ← move_construct T src;
          ret (copy_, capsule copy_ aligned_destroy, true)
    | take_ownership =>
        if C_const
        then pybind11_fail "Cannot take ownership of a const reference"
        else ret (src, capsule src plain_delete, true)
    | copy => ret (src, no_owner, true)
    | reference => ret (src, none_object, negb C_const)
    | reference_internal =>
        ret (src, reinterpret_borrow parent, negb C_const)
    | _ => pybind11_fail "pybind11 bug in eigen.h, please file a bug report"
    end;
  t ← get_tensor src;
  result ← array_t_ctor T (get_shape T t) (m_data t) parent_object;
  ret (if negb writeable then clear_writeable result else result).

(** [cast(Type &&src, policy, parent)] *)
Definition cast_rvalue (T : tensor_type) (src : positive)
    (policy : return_value_policy) (parent : handle) : M array :=
  if bool_decide (policy = reference)
     || bool_decide (policy = reference_internal)
  then pybind11_fail "Cannot use a reference return value policy for an rvalue"
  else cast_impl T false src move parent.

(** [cast(const Type &&src, policy, parent)] *)
Definition cast_const_rvalue (T : tensor_type) (src : positive)
    (policy : return_value_policy) (parent : handle) : M array :=
  if bool_decide (policy = reference)
     || bool_decide (policy = reference_internal)
  then pybind11_fail "Cannot use a reference return value policy for an rvalue"
  else cast_impl T true src move parent.

(** [cast(Type &src, policy, parent)] *)
Definition cast_lvalue (T : tensor_type) (src : positive)
    (policy : return_value_policy) (parent : handle) : M array :=
  let policy :=
    if bool_decide (policy = automatic)
       || bool_decide (policy = automatic_reference)
    then copy else policy in
  cast_impl T false src policy parent.

(** [cast(Type *src, policy, parent)] *)
Definition cast_ptr (T : tensor_type) (src : positive)
    (policy : return_value_policy) (parent : handle) : M array :=
  let policy :=
    if bool_decide (policy = automatic) then take_ownership
    else if bool_decide (policy = automatic_reference) then reference
    else policy in
  cast_impl T false src policy parent.

(** [cast(const Type *src, policy, parent)] *)
Definition cast_const_ptr (T : tensor_type) (src : positive)
    (policy : return_value_policy) (parent : handle) : M array :=
  let policy :=
    if bool_decide (policy = automatic) then take_ownership
    else if bool_decide (policy = automatic_reference) then reference
    else policy in
  cast_impl T true src policy parent.

(** [cast(const Type &src, policy, parent)]: calls the overload for
    [const Type *]. *)
Definition cast_const_lvalue (T : tensor_type) (src : positive)
    (policy : return_value_policy) (parent : handle) : M array :=
  let policy :=
    if bool_decide (policy = automatic)
       || bool_decide (policy = automatic_reference)
    then copy else policy in
  cast_const_ptr T src policy parent.

(** Overload resolution: the overload of [cast] chosen for a source of
    the given value category and constness. *)
Definition cast (T : tensor_type) (cat : value_category) (is_const : bool)
    : positive → return_value_policy → handle → M array :=
  match cat, is_const with
  | rvalue, false => cast_rvalue T
  | rvalue, true => cast_const_rvalue T
  | lvalue, false => cast_lvalue T
  | lvalue, true => cast_const_lvalue T
  | pointer, false => cast_ptr T
  | pointer, true => cast_const_ptr T
  end.

End type_caster.

(** ** type_caster<Eigen::TensorMap<Type>>: the caster of a tensor map *)

Module type_caster_map.

(** Modelled from the spec: the accessor [mutable_data()] of [numpy.h] is
    not part of this unit.  By the spec the foreign array exposes raw data
    access, mutable and immutable; the accessor hands out the array's raw
    pointer. *)
Definition mutable_data (a : array) : M positive := ret (data a).

(** [bool load(handle src, bool convert)], with the accessor
    [a.mutable_data()] of [numpy.h] as the parameter [mutable_data_].
    The extents are copied into a [std::array<Type::Index, NumIndices>],
    which converts each of them to the index type of the tensor.  The
    result is the returned boolean and the pointer the caster's [value]
    holds afterwards. *)
Definition load_with (mutable_data_ : array → M positive)
    (T : tensor_type) (a : array) (convert : bool)
    : M (bool * option positive) :=
  if Z.land (flags a) (compute_array_flag_from_tensor T) =? 0
  then ret (false, None)
  else if negb (bool_decide (dtype_ a = Scalar T)) then ret (false, None)
  else if negb (ndim a =? NumIndices T)%nat then ret (false, None)
  else
    let shape := to_index (Index T) <$> take (NumIndices T) (shape a) in
    if negb (is_correct_shape T shape) then ret (false, None)
    else
      ptr ← mutable_data_ a;
      v ← alloc (TensorMapObj (mk_tensor shape (Some ptr)));
      ret (true, Some v).

Definition load : tensor_type → array → bool → M (bool * option positive) :=
  load_with mutable_data.

(** [template <typename C> handle cast_impl(C *src, policy, parent)] *)
Definition cast_impl (T : tensor_type) (C_const : bool) (src : positive)
    (policy : return_value_policy) (parent : handle) : M array :=
  let writeable := negb C_const in
  parent_object ←
    match policy with
    | reference => ret none_object
    | reference_internal => ret (reinterpret_borrow parent)
    | _ =>
        pybind11_fail
          "Invalid return_value_policy for Eigen Map type, must be either reference or reference_internal"
    end;
  t ← get_tensor_map src;
  result ← array_t_ctor T (get_shape T t) (m_data t) parent_object;
  ret (if negb writeable then clear_writeable result else result).

(** [cast(Eigen::TensorMap<Type> &&src, policy, parent)] *)
Definition cast_rvalue (T : tensor_type) (src : positive)
    (policy : return_value_policy) (parent : handle) : M array :=
  cast_impl T false src policy parent.

(** [cast(const Eigen::TensorMap<Type> &&src, policy, parent)] *)
Definition cast_const_rvalue (T : tensor_type) (src : positive)
    (policy : return_value_policy) (parent : handle) : M array :=
  cast_impl T true src policy parent.

(** [cast(Eigen::TensorMap<Type> &src, policy, parent)] *)
Definition cast_lvalue (T : tensor_type) (src : positive)
    (policy : return_value_policy) (parent : handle) : M array :=
  let policy :=
    if bool_decide (policy = automatic)
       || bool_decide (policy = automatic_reference)
    then copy else policy in
  cast_impl T false src policy parent.

(** [cast(Eigen::TensorMap<Type> *src, policy, parent)] *)
Definition cast_ptr (T : tensor_type) (src : positive)
    (policy : return_value_policy) (parent : handle) : M array :=
  let policy :=
    if bool_decide (policy = automatic) then take_ownership
    else if bool_decide (policy = automatic_reference) then reference
    else policy in
  cast_impl T false src policy parent.

(** [cast(const Eigen::TensorMap<Type> *src, policy, parent)] *)
Definition cast_const_ptr (T : tensor_type) (src : positive)
    (policy : return_value_policy) (parent : handle) : M array :=
  let policy :=
    if bool_decide (policy = automatic) then take_ownership
    else if bool_decide (policy = automatic_reference) then reference
    else policy in
  cast_impl T true src policy parent.

(** [cast(const Eigen::TensorMap<Type> &src, policy, parent)]: calls the
    overload for a const pointer. *)
Definition cast_const_lvalue (T : tensor_type) (src : positive)
    (policy : return_value_policy) (parent : handle) : M array :=
  let policy :=
    if bool_decide (policy = automatic)
       || bool_decide (policy = automatic_reference)
    then copy else policy in
  cast_const_ptr T src policy parent.

Definition cast (T : tensor_type) (cat : value_category) (is_const : bool)
    : positive → return_value_policy → handle → M array :=
  match cat, is_const with
  | rvalue, false => cast_rvalue T
  | rvalue, true => cast_const_rvalue T
  | lvalue, false => cast_lvalue T
  | lvalue, true => cast_const_lvalue T
  | pointer, false => cast_ptr T
  | pointer, true => cast_const_ptr T
  end.

End type_caster_map.

(** ** What a program on the other side of the boundary observes *)

(** The elements of an array: the first [numel (shape a)] elements of the
    buffer its data pointer addresses, when there is such a buffer. *)
Definition elements (h : store) (a : array) : option (list Z) :=
  match h !! data a with
  | Some (Buffer l) =>
      if (numel (shape a) <=? length l)%nat
      then Some (take (numel (shape a)) l) else None
  | _ => None
  end.

(** The elements of a tensor object of type [T]. *)
Definition tensor_elements (T : tensor_type) (h : store) (t : tensor)
    : option (list Z) :=
  match m_data t with
  | Some p =>
      match h !! p with
      | Some (Buffer l) =>
          if (numel (get_shape T t) <=? length l)%nat
          then Some (take (numel (get_shape T t)) l) else None
      | _ => None
      end
  | None => None
  end.

(** The layout an array advertises, read off its flag bits. *)
Definition has_layout (a : array) (l : layout) : bool :=
  match l with
  | RowMajor => Z.testbit (flags a) 0
  | ColMajor => Z.testbit (flags a) 1
  end.

(** A cast ended in the exception of [pybind11_fail]. *)
Definition is_fatal {A} (r : result A) : bool :=
  match r with
  | Failed _ => true
  | _ => false
  end.

(** A load returned [false]: the recoverable failure. *)
Definition rejected {A} (r : result (bool * A)) : bool :=
  match r with
  | Returned (false, _) _ => true
  | _ => false
  end.

(** The extents are values of the index type, so that converting them to
    it changes nothing: true of the extents a tensor object holds, by their
    type, and of the extents of an array when they are small enough. *)
Definition index_values (ix : index_type) (extents : list Z) : Prop :=
  Forall (λ z, - index_half ix ≤ z < index_half ix) extents.

(** The array as a load of tensor type [T] sees it: with its extents
    converted to [T::Index]. *)
Definition narrowed (T : tensor_type) (a : array) : array :=
  mk_array (flags a) (dtype_ a) (to_index (Index T) <$> shape a) (data a)
           (base a).

Arguments narrowed : simpl never.

(** The source of a cast is usable: it addresses a tensor object whose
    elements can be read. *)
Definition valid_tensor (T : tensor_type) (h : store) (src : positive) : Prop :=
  ∃ t elems,
    h !! src = Some (TensorObj t) ∧ tensor_elements T h t = Some elems.

(** The policy an lvalue or a pointer is cast under once the two automatic
    policies have been replaced by the default of the overload: [copy] for
    an lvalue reference; [take_ownership] and [reference] for a pointer. *)
Definition effective_policy (cat : value_category) (p : return_value_policy)
    : return_value_policy :=
  match cat, p with
  | lvalue, (automatic | automatic_reference) => copy
  | pointer, automatic => take_ownership
  | pointer, automatic_reference => reference
  | _, _ => p
  end.

(** The part both [cast_impl]s end with: read the source through [get],
    make the array over its shape and data, and clear the writeable flag
    unless [w]. *)
Definition finish (T : tensor_type) (get : positive → M tensor)
    (src : positive) (po : owner) (w : bool) : M array :=
  t ← get src;
  result ← array_t_ctor T (get_shape T t) (m_data t) po;
  ret (if negb w then clear_writeable result else result).

(** The policy [cast_impl] of the owning caster is called with: [move] for
    a temporary, whatever was requested, and otherwise the requested policy
    with the automatic policies replaced. *)
Definition policy_in_effect (cat : value_category) (p : return_value_policy)
    : return_value_policy :=
  match cat with
  | rvalue => move
  | _ => effective_policy cat p
  end.

(** ** The descriptor of a tensor type *)

Section descriptor.

(** Modelled from the spec: [concat], [const_name<N>()] and
    [npy_format_descriptor<Scalar>::name] are declared in [descr.h] and
    [numpy.h], which are not part of this unit; they are parameters here:
    [concat] joins the descriptors of the dimensions, [const_name_int]
    writes a compile-time integer, [npy_format_descriptor_name] names the
    element type. *)
Variable concat : list string → string.
Variable const_name_int : Z → string.
Variable npy_format_descriptor_name : dtype → string.

(** [eigen_tensor_helper<T>::dimensions_descriptor]: one ["?"] per index
    of a dynamic tensor, the extents of a fixed-size one. *)
Definition dimensions_descriptor (T : tensor_type) : string :=
  match T with
  | Tensor _ n _ _ => concat (replicate n "?"%string)
  | TensorFixedSize _ dims _ _ => concat (map const_name_int dims)
  end.

(** [get_tensor_descriptor<T>::value] *)
Definition get_tensor_descriptor (T : tensor_type) : string :=
  ((((("numpy.ndarray[" ++ npy_format_descriptor_name (Scalar T))
        ++ "[") ++ dimensions_descriptor T)
      ++ "], flags.writeable, ")
     ++ match Layout T with
        | RowMajor => "flags.c_contiguous"
        | ColMajor => "flags.f_contiguous"
        end)%string.

End descriptor.

(** ** Example data *)

(** A fixed-size 2x3 row-major tensor type and a dynamic rank-2 one. *)
Definition ex_fixed : tensor_type :=
  TensorFixedSize float32 [2; 3] RowMajor DenseIndex.
Definition ex_dynamic : tensor_type := Tensor float32 2 RowMajor DenseIndex.

(** Memory with a default-constructed tensor at address 1 (the caster's
    [value]) and the six-element buffer of an array at address 2. *)
Definition ex_self : positive := 1%positive.
Definition ex_store : store :=
  <[1%positive := TensorObj (mk_tensor [0; 0] None)]>
    (<[2%positive := Buffer [1; 2; 3; 4; 5; 6]]> ∅).

(** A writeable, C-contiguous float32 array of shape 2x3 over that buffer,
    and the same array with the writeable flag cleared. *)
Definition ex_array : array :=
  mk_array (Z.lor c_style NPY_ARRAY_WRITEABLE_) float32 [2; 3] 2%positive
           none_object.
Definition ex_array_readonly : array := clear_writeable ex_array.


(** Memory with a 2x3 tensor at address 1 whose elements are in the buffer
    at address 2. *)
Definition ex_tensor : tensor := mk_tensor [2; 3] (Some 2%positive).
Definition ex_store_tensor : store :=
  <[1%positive := TensorObj ex_tensor]>
    (<[2%positive := Buffer [1; 2; 3; 4; 5; 6]]> ∅).

(** Memory with a 2x3 tensor map at address 1 over the buffer at
    address 2. *)
Definition ex_store_map : store :=
  <[1%positive := TensorMapObj ex_tensor]>
    (<[2%positive := Buffer [1; 2; 3; 4; 5; 6]]> ∅).

(** ** Properties of the shape helper *)

Lemma std_array_eq_iff (x y : list Z) : std_array_eq x y = true ↔ x = y.
Proof.
  revert y; induction x as [|a x IH]; intros [|b y]; simpl; try easy.
  rewrite andb_true_iff, Z.eqb_eq, IH. split.
  - intros [-> ->]; reflexivity.
  - intros [= -> ->]; auto.
Qed.

(** C7: for a fixed-size tensor type with compile-time dimensions [dims],
    and a candidate shape [S] of the same rank, [is_correct_shape S] is true
    if and only if [S] and [dims] agree in every dimension, that is,
    [S = dims]; a shape that matches only in some of its dimensions is
    rejected. *)
Theorem is_correct_shape_fixed_exact
    (s : dtype) (dims : list Z) (o : layout) (ix : index_type) (S : list Z) :
  length S = NumIndices (TensorFixedSize s dims o ix) →
  (is_correct_shape (TensorFixedSize s dims o ix) S = true ↔ S = dims)
  ∧ (is_correct_shape (TensorFixedSize s dims o ix) S = true
     ↔ ∀ i : nat, (i < length dims)%nat → S !! i = dims !! i).
Proof.
  intros Hlen; simpl in *. rewrite std_array_eq_iff. split.
  - split; congruence.
  - split.
    + intros <- i _; reflexivity.
    + intros Hall. symmetry. apply list_eq_same_length with (length dims); auto.
      intros i x y Hi Hx Hy. specialize (Hall i Hi). congruence.
Qed.

Lemma is_correct_shape_fixed_exact_witness :
  (is_correct_shape (TensorFixedSize float32 [2; 3] RowMajor DenseIndex)
     [2; 3] = true
   ↔ [2; 3] = [2; 3])
  ∧ (is_correct_shape (TensorFixedSize float32 [2; 3] RowMajor DenseIndex)
       [3; 2] = true
     ↔ [3; 2] = [2; 3]).
Proof.
  split.
  - apply (is_correct_shape_fixed_exact float32 [2; 3] RowMajor DenseIndex
             [2; 3]).
    reflexivity.
  - apply (is_correct_shape_fixed_exact float32 [2; 3] RowMajor DenseIndex
             [3; 2]).
    reflexivity.
Defined.

(** ** Memory lemmas shared by the proofs *)

Lemma fresh_unused (h : store) : h !! fresh (dom h) = None.
Proof. apply (not_elem_of_dom (D := gset positive)), is_fresh. Qed.

Lemma fresh_ne (h : store) (p : positive) (c : cell) :
  h !! p = Some c → fresh (dom h) ≠ p.
Proof. intros Hp Heq. rewrite <- Heq, fresh_unused in Hp. discriminate. Qed.

Lemma read_elems_elements (h : store) (a : array) :
  read_elems (Some (data a)) (numel (shape a)) h
  = match elements h a with
    | Some l => Returned l h
    | None => Undefined
    end.
Proof.
  unfold read_elems, elements.
  destruct (h !! data a) as [[l| |]|]; try reflexivity.
  destruct (numel (shape a) <=? length l)%nat; reflexivity.
Qed.

Lemma take_ndim (a : array) (n : nat) : ndim a = n → take n (shape a) = shape a.
Proof. intros <-. apply firstn_all. Qed.

(** ** The conversion to the index type *)

Lemma index_half_pos (ix : index_type) : 0 < index_half ix.
Proof. destruct ix as [bits]. simpl. apply Z.pow_pos_nonneg; lia. Qed.

Lemma to_index_value (ix : index_type) (z : Z) :
  - index_half ix ≤ z < index_half ix → to_index ix z = z.
Proof.
  intros Hz. unfold to_index. pose proof (index_half_pos ix).
  rewrite Z.mod_small by lia. lia.
Qed.

Lemma to_index_values (ix : index_type) (l : list Z) :
  index_values ix l → to_index ix <$> l = l.
Proof.
  induction 1 as [|z l Hz _ IH]; simpl; [reflexivity|].
  rewrite to_index_value by assumption. f_equal. exact IH.
Qed.

Lemma ex_tensor_index_values :
  index_values (Index ex_dynamic) (get_shape ex_dynamic ex_tensor).
Proof. repeat constructor; vm_compute; congruence. Qed.

Lemma narrowed_id (T : tensor_type) (a : array) :
  index_values (Index T) (shape a) → narrowed T a = a.
Proof.
  intros H. unfold narrowed. rewrite (to_index_values _ _ H).
  destruct a; reflexivity.
Qed.

Lemma ndim_narrowed (T : tensor_type) (a : array) : ndim (narrowed T a) = ndim a.
Proof. unfold ndim, narrowed. simpl. apply length_fmap. Qed.

(** The extents the loads test and build on, for an array of the right
    rank. *)
Lemma index_take (T : tensor_type) (a : array) :
  ndim a = NumIndices T →
  to_index (Index T) <$> take (NumIndices T) (shape a) = shape (narrowed T a).
Proof. intros Hn. rewrite (take_ndim a _ Hn). reflexivity. Qed.

(** ** Loading an owning tensor *)

(** C8: the result of the owning load, in the decision to accept and in the
    memory it leaves (which holds the loaded value), is the same for both
    values of the [convert] flag, and this whatever the constructor of
    [array_t] does with the handle: the flag is not handed to it. *)
Theorem load_ignores_convert
    (T : tensor_type) (self : positive) (a : array) (h : store)
    (c1 c2 : bool) :
  type_caster.load T self a c1 h = type_caster.load T self a c2 h
  ∧ ∀ conv : tensor_type → array → M array,
      type_caster.load_with conv T self a c1 h
      = type_caster.load_with conv T self a c2 h.
Proof. split; reflexivity. Qed.


(** The assignment of a map over an array's buffer to the caster's
    [value]. *)
Lemma assign_from_map_elements (self : positive) (x : array) (h : store) :
  type_caster.assign_from_map self (data x) (shape x) h
  = match h !! self with
    | Some (TensorObj _) =>
        match elements h x with
        | Some l =>
            Returned tt
              (<[self := TensorObj (mk_tensor (shape x) (Some (fresh (dom h))))]>
                 (<[fresh (dom h) := Buffer l]> h))
        | None => Undefined
        end
    | _ => Undefined
    end.
Proof.
  unfold type_caster.assign_from_map, get_tensor, mbind, M_bind, bind.
  destruct (h !! self) as [[| |]|]; try reflexivity.
  rewrite read_elems_elements. destruct (elements h x); reflexivity.
Qed.

(** What the owning load does, in terms of the extents as converted to the
    index type. *)
Lemma load_converted
    (T : tensor_type) (self : positive) (a : array) (convert : bool)
    (h : store) :
  (∀ msg, type_caster.load T self a convert h ≠ Failed msg)
  ∧ (ndim a ≠ NumIndices T
     ∨ is_correct_shape T (shape (narrowed T a)) = false →
     type_caster.load T self a convert h = Returned false h)
  ∧ (∀ h', type_caster.load T self a convert h = Returned true h' →
     ndim a = NumIndices T
     ∧ is_correct_shape T (shape (narrowed T a)) = true
     ∧ ∃ t0 elems,
         h !! self = Some (TensorObj t0)
         ∧ elements h (narrowed T a) = Some elems
         ∧ h' = <[self := TensorObj (mk_tensor (shape (narrowed T a))
                                       (Some (fresh (dom h))))]>
                  (<[fresh (dom h) := Buffer elems]> h))
  ∧ (∀ t0 elems,
       h !! self = Some (TensorObj t0) →
       elements h (narrowed T a) = Some elems →
       ndim a = NumIndices T →
       is_correct_shape T (shape (narrowed T a)) = true →
       type_caster.load T self a convert h
       = Returned true
           (<[self := TensorObj (mk_tensor (shape (narrowed T a))
                                   (Some (fresh (dom h))))]>
              (<[fresh (dom h) := Buffer elems]> h))).
Proof.
  unfold type_caster.load, type_caster.load_with, type_caster.array_t_of.
  unfold mbind, M_bind, bind, mret, M_ret, ret.
  destruct (Nat.eqb_spec (ndim a) (NumIndices T)) as [Hn|Hn]; cbn [negb].
  2:{ split; [discriminate | split; [intros; reflexivity|]].
      split; [discriminate | intros; congruence]. }
  rewrite (index_take T a Hn).
  destruct (is_correct_shape T (shape (narrowed T a))) eqn:Hs; cbn [negb].
  2:{ split; [discriminate | split; [intros; reflexivity|]].
      split; [discriminate | intros; congruence]. }
  pose proof (assign_from_map_elements self (narrowed T a) h) as Ha.
  change (data (narrowed T a)) with (data a) in Ha. rewrite Ha. clear Ha.
  split; [|split; [|split]].
  - intros msg. destruct (h !! self) as [[| |]|]; try discriminate.
    destruct (elements h (narrowed T a)); discriminate.
  - intros [?|?]; congruence.
  - intros h'. destruct (h !! self) as [[|t0|]|]; try discriminate.
    destruct (elements h (narrowed T a)) as [elems|]; [|discriminate].
    intros [= <-]. repeat split; auto. exists t0, elems. auto.
  - intros t0 elems Hself Hel _ _. rewrite Hself, Hel. reflexivity.
Qed.




(** ** Flag bits *)

Lemma land_pow2 (f n : Z) :
  0 ≤ n → Z.land f (2 ^ n) = if Z.testbit f n then 2 ^ n else 0.
Proof.
  intros Hn. apply Z.bits_inj'. intros m Hm.
  rewrite Z.land_spec, Z.pow2_bits_eqb by lia.
  destruct (Z.eqb_spec n m) as [->|Hne].
  - destruct (Z.testbit f m) eqn:Hf; simpl.
    + rewrite Z.pow2_bits_eqb, Z.eqb_refl by lia. reflexivity.
    + rewrite Z.bits_0. reflexivity.
  - rewrite andb_false_r. destruct (Z.testbit f n).
    + rewrite Z.pow2_bits_eqb by lia. symmetry. apply Z.eqb_neq. assumption.
    + rewrite Z.bits_0. reflexivity.
Qed.

Lemma layout_test (T : tensor_type) (a : array) :
  (Z.land (flags a) (compute_array_flag_from_tensor T) =? 0)
  = negb (has_layout a (Layout T)).
Proof.
  unfold compute_array_flag_from_tensor, has_layout, c_style, f_style.
  destruct (Layout T).
  - change 1 with (2 ^ 0). rewrite land_pow2 by lia.
    destruct (Z.testbit (flags a) 0); reflexivity.
  - change 2 with (2 ^ 1). rewrite land_pow2 by lia.
    destruct (Z.testbit (flags a) 1); reflexivity.
Qed.

Lemma writeable_clear (a : array) : writeable (clear_writeable a) = false.
Proof.
  unfold writeable, clear_writeable. cbn [flags].
  rewrite Z.land_spec, Z.lnot_spec by lia.
  change (Z.testbit NPY_ARRAY_WRITEABLE_ 10) with true. apply andb_false_r.
Qed.

Lemma writeable_new (f : Z) (d : dtype) (s : list Z) (p : positive) (o : owner) :
  writeable (mk_array (Z.lor f NPY_ARRAY_WRITEABLE_) d s p o) = true.
Proof.
  unfold writeable. cbn [flags].
  rewrite Z.lor_spec.
  change (Z.testbit NPY_ARRAY_WRITEABLE_ 10) with true. apply orb_true_r.
Qed.

(** ** Loading a tensor map *)

(** The four tests of the map load, as one decision. *)
Lemma load_with_rejected
    (md : array → M positive) (T : tensor_type) (a : array) (convert : bool)
    (h : store) :
  rejected (type_caster_map.load_with md T a convert h)
  = negb (has_layout a (Layout T)
          && bool_decide (dtype_ a = Scalar T)
          && (ndim a =? NumIndices T)%nat
          && is_correct_shape T
               (to_index (Index T) <$> take (NumIndices T) (shape a))).
Proof.
  unfold type_caster_map.load_with. rewrite layout_test.
  destruct (has_layout a (Layout T)); simpl; [|reflexivity].
  destruct (bool_decide (dtype_ a = Scalar T)); simpl; [|reflexivity].
  destruct (ndim a =? NumIndices T)%nat; simpl; [|reflexivity].
  destruct (is_correct_shape T
              (to_index (Index T) <$> take (NumIndices T) (shape a))); simpl;
    [|reflexivity].
  unfold mbind, M_bind, bind. destruct (md a h); reflexivity.
Qed.

(** An array that passes the four tests: the load goes on to the accessor
    and builds the map at the extents as converted to the index type. *)
Lemma load_with_passes
    (md : array → M positive) (T : tensor_type) (a : array) (convert : bool)
    (h : store) :
  has_layout a (Layout T) = true → dtype_ a = Scalar T →
  ndim a = NumIndices T →
  is_correct_shape T (shape (narrowed T a)) = true →
  type_caster_map.load_with md T a convert h
  = (ptr ← md a;
     v ← alloc (TensorMapObj (mk_tensor (shape (narrowed T a)) (Some ptr)));
     ret (true, Some v)) h.
Proof.
  intros Hl Hd Hn Hs. unfold type_caster_map.load_with.
  rewrite layout_test, Hl. cbn [negb].
  rewrite bool_decide_eq_true_2 by assumption. cbn [negb].
  rewrite (index_take T a Hn), Hs. apply Nat.eqb_eq in Hn. rewrite Hn.
  reflexivity.
Qed.




(** C10: whatever the accessor [mutable_data] does, the map load takes its
    decision to reject without looking at the writeable flag: two arrays
    that differ in no more than that flag are both rejected or both not
    rejected; an array that passes the four tests (the fourth on its
    extents as converted to the index type) is never rejected with the
    recoverable failure, read-only or not; and for such an array the load
    always goes on to ask for the mutable data pointer, so that its outcome
    is that of the accessor followed by the construction of the map. *)
Theorem load_map_ignores_writeable
    (md : array → M positive) (T : tensor_type) (convert : bool) (h : store) :
  (∀ a1 a2 : array,
     dtype_ a1 = dtype_ a2 → shape a1 = shape a2 → data a1 = data a2 →
     base a1 = base a2 →
     (∀ i, i ≠ 10 → Z.testbit (flags a1) i = Z.testbit (flags a2) i) →
     rejected (type_caster_map.load_with md T a1 convert h)
     = rejected (type_caster_map.load_with md T a2 convert h))
  ∧ (∀ a : array,
       has_layout a (Layout T) = true → dtype_ a = Scalar T →
       ndim a = NumIndices T →
       is_correct_shape T (to_index (Index T) <$> shape a) = true →
       rejected (type_caster_map.load_with md T a convert h) = false
       ∧ type_caster_map.load_with md T a convert h
         = (ptr ← md a;
            v ← alloc (TensorMapObj
                         (mk_tensor (to_index (Index T) <$> shape a)
                            (Some ptr)));
            ret (true, Some v)) h).
Proof.
  split.
  - intros a1 a2 Hd Hs _ _ Hbits. rewrite !load_with_rejected.
    unfold ndim. rewrite Hd, Hs. do 4 f_equal.
    unfold has_layout. destruct (Layout T); apply Hbits; lia.
  - intros a Hl Hd Hn Hs. split.
    + rewrite load_with_rejected, Hl, (take_ndim a _ Hn), Hs.
      rewrite bool_decide_eq_true_2 by assumption.
      apply Nat.eqb_eq in Hn. rewrite Hn. reflexivity.
    + apply load_with_passes; assumption.
Qed.

Lemma load_map_ignores_writeable_witness :
  rejected (type_caster_map.load ex_dynamic ex_array true ex_store)
  = rejected (type_caster_map.load ex_dynamic ex_array_readonly true ex_store)
  ∧ rejected (type_caster_map.load ex_dynamic ex_array_readonly true ex_store)
    = false.
Proof.
  destruct (load_map_ignores_writeable type_caster_map.mutable_data
              ex_dynamic true ex_store) as [Hsame Hpass].
  split.
  - apply Hsame; try reflexivity.
    intros i Hi. unfold ex_array_readonly, clear_writeable. cbn [flags].
    rewrite Z.land_spec.
    destruct (Z.ltb_spec i 0) as [Hneg|Hpos].
    + rewrite !(Z.testbit_neg_r _ i) by assumption. reflexivity.
    + rewrite Z.lnot_spec by assumption.
      change NPY_ARRAY_WRITEABLE_ with (2 ^ 10).
      rewrite Z.pow2_bits_eqb by lia.
      destruct (Z.eqb_spec 10 i); [congruence|]. simpl.
      rewrite andb_true_r. reflexivity.
  - apply Hpass; reflexivity.
Defined.

(** ** Casting: general lemmas *)

Ltac unfold_M :=
  unfold mbind, M_bind, bind, mret, M_ret, ret, pybind11_fail in *.

Lemma is_fatal_bind {A B} (m : M A) (k : A → M B) (h : store) :
  is_fatal ((m ≫= k) h)
  = match m h with
    | Returned a h1 => is_fatal (k a h1)
    | Failed _ => true
    | Undefined => false
    end.
Proof. unfold_M. destruct (m h); reflexivity. Qed.

Lemma bind_Returned {A B} (m : M A) (k : A → M B) (h h' : store) (b : B) :
  (m ≫= k) h = Returned b h' →
  ∃ a h1, m h = Returned a h1 ∧ k a h1 = Returned b h'.
Proof. unfold_M. destruct (m h); try discriminate. eauto. Qed.

Lemma not_fatal_bind {A B} (m : M A) (k : A → M B) (h : store) :
  is_fatal (m h) = false → (∀ a h1, is_fatal (k a h1) = false) →
  is_fatal ((m ≫= k) h) = false.
Proof.
  intros Hm Hk. rewrite is_fatal_bind.
  destruct (m h); [apply Hk | discriminate | reflexivity].
Qed.

Lemma read_elems_not_fatal p n h : is_fatal (read_elems p n h) = false.
Proof.
  unfold read_elems. destruct p as [p|]; [|reflexivity].
  destruct (h !! p) as [[l| |]|]; try reflexivity.
  destruct (n <=? length l)%nat; reflexivity.
Qed.

Lemma get_tensor_not_fatal src h : is_fatal (get_tensor src h) = false.
Proof. unfold get_tensor. destruct (h !! src) as [[| |]|]; reflexivity. Qed.

Lemma get_tensor_map_not_fatal src h : is_fatal (get_tensor_map src h) = false.
Proof. unfold get_tensor_map. destruct (h !! src) as [[| |]|]; reflexivity. Qed.

Lemma array_t_ctor_not_fatal T s p o h : is_fatal (array_t_ctor T s p o h) = false.
Proof.
  unfold array_t_ctor. destruct p as [p|]; [destruct o|]; try reflexivity.
  apply not_fatal_bind; [apply read_elems_not_fatal | reflexivity].
Qed.

Lemma move_construct_not_fatal T src h :
  is_fatal (type_caster.move_construct T src h) = false.
Proof.
  unfold type_caster.move_construct.
  apply not_fatal_bind; [apply get_tensor_not_fatal|].
  intros t h1. destruct T; [reflexivity|].
  apply not_fatal_bind; [apply read_elems_not_fatal | reflexivity].
Qed.

Lemma cast_impl_unfold T c src p parent h :
  type_caster.cast_impl T c src p parent h
  = match p with
    | move =>
        if c then Failed "Cannot move from a constant reference"
        else (q ← type_caster.move_construct T src;
              finish T get_tensor q (capsule q aligned_destroy) true) h
    | take_ownership =>
        if c then Failed "Cannot take ownership of a const reference"
        else finish T get_tensor src (capsule src plain_delete) true h
    | copy => finish T get_tensor src no_owner true h
    | reference => finish T get_tensor src none_object (negb c) h
    | reference_internal =>
        finish T get_tensor src (reinterpret_borrow parent) (negb c) h
    | _ => Failed "pybind11 bug in eigen.h, please file a bug report"
    end.
Proof.
  unfold type_caster.cast_impl, finish.
  destruct p; try reflexivity; destruct c; try reflexivity.
  unfold_M. destruct (type_caster.move_construct T src h); reflexivity.
Qed.

Lemma finish_not_fatal T get src po w h :
  (∀ h, is_fatal (get src h) = false) → is_fatal (finish T get src po w h) = false.
Proof.
  intros Hg. apply not_fatal_bind; [apply Hg|]. intros t h1.
  apply not_fatal_bind; [apply array_t_ctor_not_fatal | reflexivity].
Qed.

Lemma cast_impl_fatal T c src p parent h :
  is_fatal (type_caster.cast_impl T c src p parent h)
  = match p with
    | move | take_ownership => c
    | copy | reference | reference_internal => false
    | _ => true
    end.
Proof.
  rewrite cast_impl_unfold.
  destruct p; try reflexivity; try destruct c; try reflexivity;
    try (apply finish_not_fatal; intros; apply get_tensor_not_fatal).
  apply not_fatal_bind; [apply move_construct_not_fatal|].
  intros q h1. apply finish_not_fatal; intros; apply get_tensor_not_fatal.
Qed.

Lemma array_t_ctor_writeable T s p po h r h' :
  array_t_ctor T s p po h = Returned r h' → writeable r = true.
Proof.
  unfold array_t_ctor. intros H.
  destruct p as [p|]; [destruct po|].
  - apply bind_Returned in H as (l & h1 & _ & H).
    apply bind_Returned in H as (b & h2 & _ & H).
    injection H as <- _. apply writeable_new.
  - injection H as <- _. apply writeable_new.
  - injection H as <- _. apply writeable_new.
  - injection H as <- _. apply writeable_new.
  - apply bind_Returned in H as (b & h2 & _ & H).
    injection H as <- _. apply writeable_new.
Qed.

Lemma finish_writeable T get src po w h r h' :
  finish T get src po w h = Returned r h' → writeable r = w.
Proof.
  unfold finish. intros H.
  apply bind_Returned in H as (t & h1 & _ & H).
  apply bind_Returned in H as (a & h2 & Ha & H).
  apply array_t_ctor_writeable in Ha.
  injection H as <- _. destruct w; simpl; [assumption | apply writeable_clear].
Qed.

Lemma cast_impl_writeable T c src p parent h r h' :
  type_caster.cast_impl T c src p parent h = Returned r h' →
  writeable r = match p with
                | reference | reference_internal => negb c
                | _ => true
                end.
Proof.
  rewrite cast_impl_unfold.
  destruct p; try discriminate; try (destruct c; [discriminate|]);
    try (apply finish_writeable).
  intros H. apply bind_Returned in H as (q & h1 & _ & H).
  apply finish_writeable in H. assumption.
Qed.

Lemma tensor_elements_inv T h t elems :
  tensor_elements T h t = Some elems →
  ∃ p l, m_data t = Some p ∧ h !! p = Some (Buffer l)
         ∧ (numel (get_shape T t) ≤ length l)%nat
         ∧ elems = take (numel (get_shape T t)) l.
Proof.
  unfold tensor_elements. destruct (m_data t) as [p|]; [|discriminate].
  destruct (h !! p) as [[l| |]|] eqn:Hp; try discriminate.
  destruct (Nat.leb_spec (numel (get_shape T t)) (length l)); [|discriminate].
  intros [= <-]. exists p, l. repeat split; auto.
Qed.

Lemma read_elems_ok h p l n :
  h !! p = Some (Buffer l) → (n ≤ length l)%nat →
  read_elems (Some p) n h = Returned (take n l) h.
Proof.
  intros Hp Hn. unfold read_elems. rewrite Hp.
  apply Nat.leb_le in Hn. rewrite Hn. reflexivity.
Qed.

Lemma array_t_ctor_alias T s p po h :
  po ≠ no_owner →
  array_t_ctor T s (Some p) po h
  = Returned (mk_array (Z.lor (compute_array_flag_from_tensor T)
                          NPY_ARRAY_WRITEABLE_) (Scalar T) s p po) h.
Proof. intros Hpo. unfold array_t_ctor. destruct po; [congruence | reflexivity..]. Qed.

Lemma array_t_ctor_copy T s p h l :
  h !! p = Some (Buffer l) → (numel s ≤ length l)%nat →
  array_t_ctor T s (Some p) no_owner h
  = Returned (mk_array (Z.lor (compute_array_flag_from_tensor T)
                          NPY_ARRAY_WRITEABLE_) (Scalar T) s
                (fresh (dom h)) no_owner)
      (<[fresh (dom h) := Buffer (take (numel s) l)]> h).
Proof.
  intros Hp Hn. unfold array_t_ctor. unfold_M.
  rewrite (read_elems_ok h p l) by assumption. reflexivity.
Qed.

Lemma finish_valid T src po w h t elems :
  h !! src = Some (TensorObj t) → tensor_elements T h t = Some elems →
  ∃ r h', finish T get_tensor src po w h = Returned r h'
          ∧ shape r = get_shape T t
          ∧ elements h' r = Some elems
          ∧ (po ≠ no_owner → h' = h ∧ m_data t = Some (data r) ∧ base r = po)
          ∧ (po = no_owner →
             h !! data r = None ∧ base r = no_owner
             ∧ h' = <[data r := Buffer elems]> h).
Proof.
  intros Hsrc Hel.
  destruct (tensor_elements_inv _ _ _ _ Hel) as (p & l & Hp & Hl & Hn & ->).
  unfold finish, get_tensor. unfold_M. rewrite Hsrc, Hp.
  destruct (decide (po = no_owner)) as [->|Hpo].
  - rewrite (array_t_ctor_copy T _ p h l) by assumption.
    eexists _, _. split; [reflexivity|].
    assert (He : ∀ f, elements (<[fresh (dom h) := Buffer (take (numel (get_shape T t)) l)]> h)
       (mk_array f (Scalar T) (get_shape T t) (fresh (dom h)) no_owner)
       = Some (take (numel (get_shape T t)) l)).
    { intros f. unfold elements; simpl. rewrite lookup_insert_eq.
      rewrite length_take, Nat.min_l by assumption.
      rewrite Nat.leb_refl, take_take, Nat.min_id. reflexivity. }
    destruct w; simpl; repeat split; try congruence; try apply He;
      try apply fresh_unused.
  - rewrite array_t_ctor_alias by assumption.
    eexists _, _. split; [reflexivity|].
    assert (He : ∀ f, elements h (mk_array f (Scalar T) (get_shape T t) p po)
       = Some (take (numel (get_shape T t)) l)).
    { intros f. unfold elements; simpl. rewrite Hl.
      apply Nat.leb_le in Hn. rewrite Hn. reflexivity. }
    destruct w; simpl; repeat split; try congruence; try apply He.
Qed.

Lemma cast_unfold T cat c src p parent h :
  type_caster.cast T cat c src p parent h
  = match cat with
    | rvalue =>
        if bool_decide (p = reference) || bool_decide (p = reference_internal)
        then Failed "Cannot use a reference return value policy for an rvalue"
        else type_caster.cast_impl T c src move parent h
    | _ => type_caster.cast_impl T c src (effective_policy cat p) parent h
    end.
Proof. destruct cat, c, p; reflexivity. Qed.

Lemma cast_map_unfold T cat c src p parent h :
  type_caster_map.cast T cat c src p parent h
  = type_caster_map.cast_impl T c src (effective_policy cat p) parent h.
Proof. destruct cat, c, p; reflexivity. Qed.

Lemma cast_map_impl_unfold T c src p parent h :
  type_caster_map.cast_impl T c src p parent h
  = match p with
    | reference => finish T get_tensor_map src none_object (negb c) h
    | reference_internal =>
        finish T get_tensor_map src (reinterpret_borrow parent) (negb c) h
    | _ =>
        Failed
          "Invalid return_value_policy for Eigen Map type, must be either reference or reference_internal"
    end.
Proof. destruct p; reflexivity. Qed.

Lemma move_construct_valid T src h t elems :
  h !! src = Some (TensorObj t) → tensor_elements T h t = Some elems →
  ∃ q h1 t',
    type_caster.move_construct T src h = Returned q h1
    ∧ h !! q = None
    ∧ h1 !! q = Some (TensorObj t')
    ∧ get_shape T t' = get_shape T t
    ∧ tensor_elements T h1 t' = Some elems
    ∧ (∀ s n o ix, T = Tensor s n o ix →
       t' = t
       ∧ h1 = <[src := TensorObj (mk_tensor (replicate n 0) None)]>
                (<[q := TensorObj t]> h)).
Proof.
  intros Hsrc Hel.
  destruct (tensor_elements_inv _ _ _ _ Hel) as (p & l & Hp & Hl & Hn & ->).
  unfold type_caster.move_construct, get_tensor. unfold_M. rewrite Hsrc.
  assert (Hps : p ≠ src) by congruence.
  destruct T as [s n o ix | s dims o ix]; simpl in *.
  - unfold alloc, write. eexists _, _, t. split; [reflexivity|].
    assert (Hq : fresh (dom h) ≠ src) by (eapply fresh_ne; eauto).
    assert (Hqp : fresh (dom h) ≠ p) by (eapply fresh_ne; eauto).
    split; [apply fresh_unused|].
    split; [rewrite lookup_insert_ne by congruence; apply lookup_insert_eq|].
    split; [reflexivity|]. split.
    + unfold tensor_elements. rewrite Hp. simpl.
      rewrite !lookup_insert_ne by congruence. rewrite Hl.
      apply Nat.leb_le in Hn. rewrite Hn. reflexivity.
    + intros s' n' o' ix' [= <- <- <- <-]. split; reflexivity.
  - rewrite Hp, (read_elems_ok h p l) by assumption.
    unfold alloc. eexists _, _, _. split; [reflexivity|].
    set (b := fresh (dom h)).
    set (h1 := <[b := Buffer (take (numel dims) l)]> h).
    assert (Hqb : fresh (dom h1) ≠ b).
    { eapply fresh_ne. unfold h1. apply lookup_insert_eq. }
    assert (Hbq : b ≠ fresh (dom h1)) by (intros E'; apply Hqb; symmetry; exact E').
    split.
    { pose proof (fresh_unused h1) as Hf.
      apply lookup_insert_None in Hf as [Hf _]. exact Hf. }
    split; [apply lookup_insert_eq|].
    split; [reflexivity|]. split; [|discriminate].
    unfold tensor_elements; simpl.
    rewrite lookup_insert_ne by exact Hqb. unfold h1.
    rewrite lookup_insert_eq, length_take, Nat.min_l by assumption.
    rewrite Nat.leb_refl, take_take, Nat.min_id. reflexivity.
Qed.

(** Move construction, exactly: a dynamic tensor hands its buffer over to
    the new object and is left empty; a fixed-size tensor is left as it was
    and the new object holds a copy of its elements in a buffer of its
    own. *)
Lemma move_construct_exact T src h t elems :
  h !! src = Some (TensorObj t) → tensor_elements T h t = Some elems →
  match T with
  | Tensor _ n _ _ =>
      type_caster.move_construct T src h
      = Returned (fresh (dom h))
          (<[src := TensorObj (mk_tensor (replicate n 0) None)]>
             (<[fresh (dom h) := TensorObj t]> h))
  | TensorFixedSize _ dims _ _ =>
      type_caster.move_construct T src h
      = Returned (fresh (dom (<[fresh (dom h) := Buffer elems]> h)))
          (<[fresh (dom (<[fresh (dom h) := Buffer elems]> h))
               := TensorObj (mk_tensor dims (Some (fresh (dom h))))]>
             (<[fresh (dom h) := Buffer elems]> h))
  end.
Proof.
  intros Hsrc Hel.
  destruct (tensor_elements_inv _ _ _ _ Hel) as (p & l & Hp & Hl & Hn & ->).
  unfold type_caster.move_construct, get_tensor. unfold_M. rewrite Hsrc.
  destruct T as [s n o ix | s dims o ix]; simpl in *; [reflexivity|].
  rewrite Hp, (read_elems_ok h p l) by assumption. reflexivity.
Qed.

Lemma bind_Returned_l {A B} (m : M A) (k : A → M B) (h h1 : store) (a : A) :
  m h = Returned a h1 → (m ≫= k) h = k a h1.
Proof. intros Hm. unfold_M. rewrite Hm. reflexivity. Qed.

Lemma cast_impl_returns T c src p parent h :
  valid_tensor T h src →
  is_fatal (type_caster.cast_impl T c src p parent h) = false →
  ∃ r h', type_caster.cast_impl T c src p parent h = Returned r h'.
Proof.
  intros (t & elems & Hs & He). rewrite cast_impl_fatal, cast_impl_unfold.
  destruct p; try discriminate; intros Hc; try rewrite Hc.
  - destruct (finish_valid T src (capsule src plain_delete) true h t elems Hs He)
      as (r & h' & Hr & _). eauto.
  - destruct (finish_valid T src no_owner true h t elems Hs He)
      as (r & h' & Hr & _). eauto.
  - destruct (move_construct_valid T src h t elems Hs He)
      as (q & h1 & t' & Hm & _ & Hq & _ & He' & _).
    rewrite (bind_Returned_l _ _ _ _ _ Hm).
    destruct (finish_valid T q (capsule q aligned_destroy) true h1 t' elems Hq He')
      as (r & h' & Hr & _). eauto.
  - destruct (finish_valid T src none_object (negb c) h t elems Hs He)
      as (r & h' & Hr & _). eauto.
  - destruct (finish_valid T src (reinterpret_borrow parent) (negb c) h t elems
                Hs He) as (r & h' & Hr & _). eauto.
Qed.

(** ** Casting an owning tensor *)

(** C3, as amended: the owning caster ends in the exception of
    [pybind11_fail] in exactly these cases: for a temporary, when the source
    is const (whatever the policy) or the policy is [reference] or
    [reference_internal]; for an lvalue or a pointer, when the policy in
    effect, after the automatic policies are replaced by the default of the
    overload, is [move] or [take_ownership] and the source is const, or is
    no enumerator at all.  In every other case, an unrecognized policy for a
    non-const temporary among them, the cast of a usable source returns an
    array. *)
Theorem cast_owning_fatal_cases
    (T : tensor_type) (cat : value_category) (c : bool) (src : positive)
    (p : return_value_policy) (parent : handle) (h : store) :
  (is_fatal (type_caster.cast T cat c src p parent h) = true ↔
   match cat with
   | rvalue => c = true ∨ p = reference ∨ p = reference_internal
   | _ =>
       (c = true ∧ (effective_policy cat p = move
                    ∨ effective_policy cat p = take_ownership))
       ∨ (∃ raw, effective_policy cat p = unrecognized raw)
   end)
  ∧ (valid_tensor T h src →
     is_fatal (type_caster.cast T cat c src p parent h) = false →
     ∃ r h', type_caster.cast T cat c src p parent h = Returned r h').
Proof.
  rewrite cast_unfold. split.
  - destruct cat.
    + destruct (decide (p = reference)) as [->|H1].
      { simpl. split; auto. }
      destruct (decide (p = reference_internal)) as [->|H2].
      { simpl. split; auto. }
      rewrite !bool_decide_eq_false_2 by assumption; simpl.
      rewrite cast_impl_fatal. split; [auto|].
      intros [?|[?|?]]; congruence.
    + rewrite cast_impl_fatal.
      destruct p, c; simpl; split; try discriminate; try (intros; reflexivity);
        try (intros [[? [?|?]]|[raw ?]]; discriminate); eauto.
    + rewrite cast_impl_fatal.
      destruct p, c; simpl; split; try discriminate; try (intros; reflexivity);
        try (intros [[? [?|?]]|[raw ?]]; discriminate); eauto.
  - intros Hv. destruct cat; try apply cast_impl_returns; try assumption.
    destruct (bool_decide (p = reference) || bool_decide (p = reference_internal));
      [discriminate|].
    apply cast_impl_returns; assumption.
Qed.

Lemma cast_owning_fatal_cases_witness :
  ∃ r h',
    type_caster.cast ex_dynamic lvalue true ex_self reference None
      ex_store_tensor = Returned r h'.
Proof.
  destruct (cast_owning_fatal_cases ex_dynamic lvalue true ex_self reference
              None ex_store_tensor) as [_ Hret].
  apply Hret.
  - exists ex_tensor, [1; 2; 3; 4; 5; 6]. split; reflexivity.
  - reflexivity.
Defined.

Lemma cast_owning_claimed_cases_counterexample :
  (type_caster.cast ex_dynamic rvalue true ex_self copy None ex_store_tensor
   = Failed "Cannot move from a constant reference"
   ∧ ¬ ((rvalue = rvalue ∧ (copy = reference ∨ copy = reference_internal))
        ∨ (true = true ∧ (copy = move ∨ copy = take_ownership))
        ∨ (∃ raw, copy = unrecognized raw)))
  ∧ ((∃ r h',
        type_caster.cast ex_dynamic rvalue false ex_self (unrecognized 42) None
          ex_store_tensor = Returned r h')
     ∧ ∃ raw, unrecognized 42 = unrecognized raw).
Proof.
  split; split.
  - reflexivity.
  - intros [[_ [H|H]]|[[_ [H|H]]|[raw H]]]; discriminate.
  - eexists _, _. vm_compute. reflexivity.
  - exists 42. reflexivity.
Qed.

(** ** Casting a tensor map *)

(** C4: whatever the overload and the constness of the source, casting a
    tensor map with policy [copy], [move] or [take_ownership] ends in the
    exception of [pybind11_fail] whose message names the invalid policy; no
    overload replaces one of these policies by another.  A cast that returns
    an array was asked for [reference] or [reference_internal] (or, through
    a pointer, for [automatic_reference], the default that stands for
    [reference]), and [cast_impl] itself returns an array for these two
    policies only. *)
Theorem cast_map_policies
    (T : tensor_type) (cat : value_category) (c : bool) (src : positive)
    (p : return_value_policy) (parent : handle) (h : store) :
  (p = copy ∨ p = move ∨ p = take_ownership →
   type_caster_map.cast T cat c src p parent h
   = Failed
       "Invalid return_value_policy for Eigen Map type, must be either reference or reference_internal")
  ∧ (∀ r h',
       type_caster_map.cast T cat c src p parent h = Returned r h' →
       p = reference ∨ p = reference_internal
       ∨ (cat = pointer ∧ p = automatic_reference))
  ∧ (∀ r h',
       type_caster_map.cast_impl T c src p parent h = Returned r h' →
       p = reference ∨ p = reference_internal).
Proof.
  rewrite cast_map_unfold, !cast_map_impl_unfold. repeat split.
  - intros [-> | [-> | ->]]; destruct cat; reflexivity.
  - intros r h'. destruct cat, p; simpl; try discriminate; auto.
  - intros r h'. destruct p; try discriminate; auto.
Qed.

Lemma cast_map_policies_witness :
  type_caster_map.cast ex_dynamic rvalue false ex_self move None ex_store_map
  = Failed
      "Invalid return_value_policy for Eigen Map type, must be either reference or reference_internal".
Proof.
  destruct (cast_map_policies ex_dynamic rvalue false ex_self move None
              ex_store_map) as [Hfail _].
  apply Hfail. right; left; reflexivity.
Defined.

(** ** The writeable flag of a produced array *)

(** C5: when a cast of an owning tensor or of a tensor map returns an
    array, the array is writeable if the requested policy is [copy], [move]
    or [take_ownership]; if it is [reference] or [reference_internal] the
    array is writeable exactly when the source is not const. *)
Theorem cast_writeable_flag
    (T : tensor_type) (cat : value_category) (c : bool) (src : positive)
    (p : return_value_policy) (parent : handle) (h h' : store) (r : array) :
  (type_caster.cast T cat c src p parent h = Returned r h' →
   (p = copy ∨ p = move ∨ p = take_ownership → writeable r = true)
   ∧ (p = reference ∨ p = reference_internal → writeable r = negb c))
  ∧ (type_caster_map.cast T cat c src p parent h = Returned r h' →
     (p = copy ∨ p = move ∨ p = take_ownership → writeable r = true)
     ∧ (p = reference ∨ p = reference_internal → writeable r = negb c)).
Proof.
  split.
  - rewrite cast_unfold. intros H. destruct cat.
    + destruct (decide (p = reference)) as [->|H1]; [discriminate|].
      destruct (decide (p = reference_internal)) as [->|H2]; [discriminate|].
      rewrite !bool_decide_eq_false_2 in H by assumption; simpl in H.
      apply cast_impl_writeable in H. split; [auto|]. intros [?|?]; congruence.
    + apply cast_impl_writeable in H.
      split; intros Hp; decompose [or] Hp; subst p; exact H.
    + apply cast_impl_writeable in H.
      split; intros Hp; decompose [or] Hp; subst p; exact H.
  - rewrite cast_map_unfold, cast_map_impl_unfold. intros H.
    split; intros Hp; decompose [or] Hp; subst p;
      destruct cat; simpl in H; try discriminate;
      apply finish_writeable in H; exact H.
Qed.

Lemma cast_writeable_flag_witness :
  writeable
    (mk_array c_style float32 [2; 3] 2%positive none_object) = negb true.
Proof.
  destruct (cast_writeable_flag ex_dynamic lvalue true ex_self reference None
              ex_store_tensor ex_store_tensor
              (mk_array c_style float32 [2; 3] 2%positive none_object))
    as [Hown _].
  apply Hown; [reflexivity | left; reflexivity].
Defined.

(** [cast_impl] under [move], for a usable source. *)
Lemma cast_impl_move_exact T src parent h t elems :
  h !! src = Some (TensorObj t) →
  tensor_elements T h t = Some elems →
  ∃ r h' q t',
    type_caster.cast_impl T false src move parent h = Returned r h'
    ∧ h !! q = None
    ∧ h' !! q = Some (TensorObj t')
    ∧ base r = capsule q aligned_destroy
    ∧ m_data t' = Some (data r)
    ∧ shape r = get_shape T t
    ∧ elements h' r = Some elems
    ∧ writeable r = true
    ∧ match T with
      | Tensor _ n _ _ =>
          t' = t
          ∧ m_data t = Some (data r)
          ∧ h' = <[src := TensorObj (mk_tensor (replicate n 0) None)]>
                   (<[q := TensorObj t]> h)
      | TensorFixedSize _ dims _ _ =>
          h !! data r = None
          ∧ data r ≠ q
          ∧ m_data t ≠ Some (data r)
          ∧ t' = mk_tensor dims (Some (data r))
          ∧ h' = <[q := TensorObj t']> (<[data r := Buffer elems]> h)
      end.
Proof.
  intros Hs He. rewrite cast_impl_unfold.
  destruct (move_construct_valid T src h t elems Hs He)
    as (q & h1 & t' & Hm & Hfresh & Hq & Hshape & He' & _).
  pose proof (move_construct_exact T src h t elems Hs He) as Hex.
  rewrite (bind_Returned_l _ _ _ _ _ Hm).
  destruct (finish_valid T q (capsule q aligned_destroy) true h1 t' elems Hq He')
    as (r & h' & Hr & Hsh & Hel & Halias & _).
  destruct Halias as (-> & Hdata & Hbase); [discriminate|].
  exists r, h1, q, t'. rewrite Hr.
  split; [reflexivity|]. split; [assumption|]. split; [assumption|].
  split; [assumption|]. split; [assumption|]. split; [congruence|].
  split; [assumption|].
  split; [apply (finish_writeable _ _ _ _ _ _ _ _ Hr)|].
  destruct T as [s n o ix | s dims o ix].
  - rewrite Hm in Hex. injection Hex as -> ->.
    assert (Hqs : fresh (dom h) ≠ src) by (eapply fresh_ne; eauto).
    rewrite lookup_insert_ne, lookup_insert_eq in Hq by congruence.
    injection Hq as <-. auto.
  - rewrite Hm in Hex. injection Hex as -> ->.
    rewrite lookup_insert_eq in Hq. injection Hq as <-.
    simpl in Hdata. injection Hdata as Hdata.
    pose proof (fresh_unused (<[fresh (dom h) := Buffer elems]> h)) as Hf.
    apply lookup_insert_None in Hf as [_ Hf].
    destruct (tensor_elements_inv _ _ _ _ He) as (p0 & l & Hp0 & Hl & _).
    rewrite <- Hdata. repeat split.
    + apply fresh_unused.
    + exact Hf.
    + rewrite Hp0. intros [= ->]. rewrite fresh_unused in Hl. discriminate.
Qed.

(** ** Casting a temporary *)

(** C9, as amended: a const temporary cannot be cast: every policy ends in
    the exception of [pybind11_fail].  For a non-const temporary and a
    policy other than [reference] and [reference_internal] the requested
    policy is ignored: the result is that of [cast_impl] with policy
    [move].  For a usable source it is a writeable array bound to a capsule
    with the aligned destructor; the capsule holds a tensor object at an
    address unused before, and the array's data pointer is the data pointer
    of that object, so the array receives no copy of its own, as it would
    under [copy]; its shape and elements are those of the source.  For a
    dynamic tensor nothing is copied: the new object takes the source's
    buffer, the source object is left empty, and nothing else in memory
    changes.  For a fixed-size tensor, whose elements are part of the
    object, move construction copies them: the new object has a buffer at
    an address unused before holding the elements, and the source and its
    buffer stay as they were. *)
Theorem cast_rvalue_moves
    (T : tensor_type) (src : positive) (parent : handle) (h : store) :
  (∀ p, is_fatal (type_caster.cast T rvalue true src p parent h) = true)
  ∧ (∀ p, p ≠ reference → p ≠ reference_internal →
     type_caster.cast T rvalue false src p parent h
     = type_caster.cast_impl T false src move parent h)
  ∧ (∀ p t elems,
       p ≠ reference → p ≠ reference_internal →
       h !! src = Some (TensorObj t) →
       tensor_elements T h t = Some elems →
       ∃ r h' q t',
         type_caster.cast T rvalue false src p parent h = Returned r h'
         ∧ h !! q = None
         ∧ h' !! q = Some (TensorObj t')
         ∧ base r = capsule q aligned_destroy
         ∧ m_data t' = Some (data r)
         ∧ shape r = get_shape T t
         ∧ elements h' r = Some elems
         ∧ writeable r = true
         ∧ match T with
           | Tensor _ n _ _ =>
               t' = t
               ∧ m_data t = Some (data r)
               ∧ h' = <[src := TensorObj (mk_tensor (replicate n 0) None)]>
                        (<[q := TensorObj t]> h)
           | TensorFixedSize _ dims _ _ =>
               h !! data r = None
               ∧ data r ≠ q
               ∧ m_data t ≠ Some (data r)
               ∧ t' = mk_tensor dims (Some (data r))
               ∧ h' = <[q := TensorObj t']> (<[data r := Buffer elems]> h)
           end).
Proof.
  assert (Heq : ∀ p, p ≠ reference → p ≠ reference_internal →
     type_caster.cast T rvalue false src p parent h
     = type_caster.cast_impl T false src move parent h).
  { intros p H1 H2. rewrite cast_unfold.
    rewrite !bool_decide_eq_false_2 by assumption. reflexivity. }
  split; [|split; [exact Heq|]].
  - intros p. rewrite cast_unfold.
    destruct (bool_decide (p = reference) || bool_decide (p = reference_internal));
      reflexivity.
  - intros p t elems H1 H2 Hs He. rewrite (Heq p H1 H2).
    apply cast_impl_move_exact; assumption.
Qed.

Lemma cast_rvalue_moves_witness :
  ∃ r h' q,
    type_caster.cast ex_dynamic rvalue false ex_self copy None ex_store_tensor
    = Returned r h'
    ∧ ex_store_tensor !! q = None
    ∧ base r = capsule q aligned_destroy
    ∧ Some (data r) = m_data ex_tensor
    ∧ elements h' r = Some [1; 2; 3; 4; 5; 6]
    ∧ h' !! ex_self = Some (TensorObj (mk_tensor [0; 0] None)).
Proof.
  destruct (cast_rvalue_moves ex_dynamic ex_self None ex_store_tensor)
    as (_ & _ & Hmove).
  destruct (Hmove copy ex_tensor [1; 2; 3; 4; 5; 6])
    as (r & h' & q & t' & Hr & Hq & _ & Hb & _ & _ & He & _ & Hdyn);
    try discriminate; try reflexivity.
  destruct Hdyn as (_ & Hd & Hh).
  exists r, h', q. repeat split; auto.
  rewrite Hh. apply lookup_insert_eq.
Defined.

(** The claim as it stands fails for a fixed-size tensor: a requested
    [copy] of a temporary 2x3 tensor does copy the data.  The six elements,
    which stay in the source's buffer at address 2, are copied into a new
    buffer at address 3, the storage of the tensor object the capsule
    holds, and the array returned addresses that copy. *)
Lemma cast_rvalue_fixed_copies_counterexample :
  type_caster.cast ex_fixed rvalue false ex_self copy None ex_store_tensor
  = Returned
      (mk_array (Z.lor c_style NPY_ARRAY_WRITEABLE_) float32 [2; 3]
         3%positive (capsule 4%positive aligned_destroy))
      (<[4%positive := TensorObj (mk_tensor [2; 3] (Some 3%positive))]>
         (<[3%positive := Buffer [1; 2; 3; 4; 5; 6]]> ex_store_tensor))
  ∧ ex_store_tensor !! 3%positive = None
  ∧ ex_store_tensor !! 2%positive = Some (Buffer [1; 2; 3; 4; 5; 6])
  ∧ m_data ex_tensor = Some 2%positive.
Proof. repeat split; vm_compute; reflexivity. Qed.

Lemma elements_length h a elems :
  elements h a = Some elems → length elems = numel (shape a).
Proof.
  unfold elements. destruct (h !! data a) as [[l| |]|]; try discriminate.
  destruct (Nat.leb_spec (numel (shape a)) (length l)); [|discriminate].
  intros [= <-]. rewrite length_take. lia.
Qed.

Lemma get_shape_loaded T s d :
  is_correct_shape T s = true → get_shape T (mk_tensor s d) = s.
Proof.
  destruct T as [? ? ? ?|? dims ? ?]; simpl; [reflexivity|].
  intros H. apply std_array_eq_iff in H. assumption.
Qed.

(** What a successful owning load leaves behind, for an array whose extents
    are values of the index type. *)
Lemma load_true_inv T self a convert h h1 :
  index_values (Index T) (shape a) →
  type_caster.load T self a convert h = Returned true h1 →
  ∃ t0 elems b,
    is_correct_shape T (shape a) = true
    ∧ h !! self = Some (TensorObj t0)
    ∧ elements h a = Some elems
    ∧ h !! b = None
    ∧ h1 = <[self := TensorObj (mk_tensor (shape a) (Some b))]>
             (<[b := Buffer elems]> h).
Proof.
  intros Hiv Hload.
  destruct (load_converted T self a convert h) as (_ & _ & Hinv & _).
  destruct (Hinv h1 Hload) as (_ & Hs & t0 & elems & Hself & Hel & ->).
  rewrite (narrowed_id T a Hiv) in *.
  exists t0, elems, (fresh (dom h)). repeat split; auto. apply fresh_unused.
Qed.

Lemma load_true_rank T self a convert h h1 :
  type_caster.load T self a convert h = Returned true h1 →
  ndim a = NumIndices T.
Proof.
  intros Hload.
  destruct (load_converted T self a convert h) as (_ & _ & Hinv & _).
  destruct (Hinv h1 Hload) as (Hn & _). exact Hn.
Qed.

(** ** Round trip *)




(** ** The scenarios of the specification, evaluated *)

(** A fixed 2x3 row-major float32 tensor accepts an array of shape [2; 3]
    and answers [false], with no exception, to one of shape [3; 2]. *)
Example scenario_fixed_shape_accepts :
  ∃ h', type_caster.load ex_fixed ex_self ex_array true ex_store
        = Returned true h'.
Proof. eexists. vm_compute. reflexivity. Qed.

Example scenario_fixed_shape_rejects :
  type_caster.load ex_fixed ex_self
    (mk_array (flags ex_array) float32 [3; 2] 2%positive none_object)
    true ex_store
  = Returned false ex_store.
Proof. reflexivity. Qed.

(** Casting a tensor map with policy [move] fails. *)
Example scenario_map_move_fails :
  is_fatal (type_caster_map.cast ex_dynamic lvalue false ex_self move None
              ex_store_map) = true.
Proof. reflexivity. Qed.

(** A const tensor reference cast with policy [reference] gives an array
    that is not writeable and aliases the tensor's buffer. *)
Example scenario_const_reference :
  type_caster.cast ex_dynamic lvalue true ex_self reference None
    ex_store_tensor
  = Returned (mk_array c_style float32 [2; 3] 2%positive none_object)
      ex_store_tensor.
Proof. reflexivity. Qed.

(** A float64 array is not loaded into a float32 map. *)
Example scenario_map_dtype_mismatch :
  type_caster_map.load ex_dynamic
    (mk_array (flags ex_array) float64 [2; 3] 2%positive none_object)
    true ex_store
  = Returned (false, None) ex_store.
Proof. reflexivity. Qed.

(** ** Further properties of casting and loading *)


Lemma has_layout_new (T : tensor_type) d s p o :
  has_layout (mk_array (Z.lor (compute_array_flag_from_tensor T)
                          NPY_ARRAY_WRITEABLE_) d s p o) (Layout T) = true.
Proof.
  unfold has_layout, compute_array_flag_from_tensor. cbn [flags].
  destruct (Layout T); rewrite Z.lor_spec; reflexivity.
Qed.

Lemma has_layout_clear (a : array) (l : layout) :
  has_layout (clear_writeable a) l = has_layout a l.
Proof.
  unfold has_layout, clear_writeable. cbn [flags].
  destruct l; rewrite Z.land_spec, Z.lnot_spec by lia;
    unfold NPY_ARRAY_WRITEABLE_; simpl Z.testbit at 2; apply andb_true_r.
Qed.

Lemma finish_spec T (get : positive → M tensor) src po w h t elems r h' :
  get src h = Returned t h → tensor_elements T h t = Some elems →
  finish T get src po w h = Returned r h' →
  shape r = get_shape T t ∧ dtype_ r = Scalar T
  ∧ has_layout r (Layout T) = true
  ∧ writeable r = w ∧ base r = po ∧ elements h' r = Some elems
  ∧ (po ≠ no_owner → h' = h ∧ m_data t = Some (data r))
  ∧ (po = no_owner → h !! data r = None ∧ h' = <[data r := Buffer elems]> h).
Proof.
  intros Hget Hel Hfin.
  pose proof (finish_writeable _ _ _ _ _ _ _ _ Hfin) as Hw.
  revert Hfin.
  destruct (tensor_elements_inv _ _ _ _ Hel) as (p & l & Hp & Hl & Hn & ->).
  unfold finish. unfold_M. rewrite Hget, Hp.
  destruct (decide (po = no_owner)) as [->|Hpo].
  - rewrite (array_t_ctor_copy T _ p h l) by assumption.
    intros [= <- <-].
    assert (He : ∀ f, elements (<[fresh (dom h) := Buffer (take (numel (get_shape T t)) l)]> h)
       (mk_array f (Scalar T) (get_shape T t) (fresh (dom h)) no_owner)
       = Some (take (numel (get_shape T t)) l)).
    { intros f. unfold elements; simpl. rewrite lookup_insert_eq.
      rewrite length_take, Nat.min_l by assumption.
      rewrite Nat.leb_refl, take_take, Nat.min_id. reflexivity. }
    destruct w; simpl; rewrite ?has_layout_clear, ?has_layout_new;
      repeat split; try congruence; try apply He; try apply fresh_unused;
      try apply writeable_new; try apply writeable_clear.
  - rewrite array_t_ctor_alias by assumption.
    intros [= <- <-].
    assert (He : ∀ f, elements h (mk_array f (Scalar T) (get_shape T t) p po)
       = Some (take (numel (get_shape T t)) l)).
    { intros f. unfold elements; simpl. rewrite Hl.
      apply Nat.leb_le in Hn. rewrite Hn. reflexivity. }
    destruct w; simpl; rewrite ?has_layout_clear, ?has_layout_new;
      repeat split; try congruence; try apply He;
      try apply writeable_new; try apply writeable_clear.
Qed.


Lemma cast_in_effect T cat c src p parent h r h' :
  type_caster.cast T cat c src p parent h = Returned r h' →
  type_caster.cast_impl T c src (policy_in_effect cat p) parent h
  = Returned r h'.
Proof.
  rewrite cast_unfold. destruct cat; simpl; auto.
  destruct (bool_decide (p = reference) || bool_decide (p = reference_internal));
    [discriminate | auto].
Qed.

Lemma get_tensor_inv src h t h1 :
  get_tensor src h = Returned t h1 → h1 = h ∧ h !! src = Some (TensorObj t).
Proof.
  unfold get_tensor. destruct (h !! src) as [[| |]|]; try discriminate.
  intros [= -> ->]. auto.
Qed.

Lemma get_tensor_map_inv src h t h1 :
  get_tensor_map src h = Returned t h1 →
  h1 = h ∧ h !! src = Some (TensorMapObj t).
Proof.
  unfold get_tensor_map. destruct (h !! src) as [[| |]|]; try discriminate.
  intros [= -> ->]. auto.
Qed.

Lemma read_elems_inv ptr n h l h1 :
  read_elems ptr n h = Returned l h1 → h1 = h.
Proof.
  unfold read_elems. destruct ptr as [p|]; [|discriminate].
  destruct (h !! p) as [[l0| |]|]; try discriminate.
  destruct (n <=? length l0)%nat; [|discriminate]. intros [= _ ->]. reflexivity.
Qed.

Lemma insert_fresh_frame (h : store) (c : cell) (a : positive) :
  is_Some (h !! a) → <[fresh (dom h) := c]> h !! a = h !! a.
Proof.
  intros [x Hx]. apply lookup_insert_ne. eapply fresh_ne. eassumption.
Qed.

Lemma array_t_ctor_frame T s ptr po h r h' :
  array_t_ctor T s ptr po h = Returned r h' →
  ∀ a, is_Some (h !! a) → h' !! a = h !! a.
Proof.
  unfold array_t_ctor. intros H a Ha.
  destruct ptr as [p|]; [destruct po|].
  - apply bind_Returned in H as (l & h1 & Hr & H).
    apply read_elems_inv in Hr as ->.
    injection H as _ <-. apply insert_fresh_frame, Ha.
  - injection H as _ <-. reflexivity.
  - injection H as _ <-. reflexivity.
  - injection H as _ <-. reflexivity.
  - injection H as _ <-. apply insert_fresh_frame, Ha.
Qed.

Lemma finish_frame T (get : positive → M tensor) src po w h r h' :
  (∀ h0 t h1, get src h0 = Returned t h1 → h1 = h0) →
  finish T get src po w h = Returned r h' →
  ∀ a, is_Some (h !! a) → h' !! a = h !! a.
Proof.
  intros Hget H. unfold finish in H.
  apply bind_Returned in H as (t & h1 & Ht & H). apply Hget in Ht as ->.
  apply bind_Returned in H as (r0 & h2 & Hc & H).
  injection H as _ <-. eapply array_t_ctor_frame; eassumption.
Qed.

Lemma move_construct_frame T src h q h1 :
  type_caster.move_construct T src h = Returned q h1 →
  h !! q = None
  ∧ ∀ a, a ≠ src → is_Some (h !! a) → h1 !! a = h !! a.
Proof.
  unfold type_caster.move_construct. intros H.
  apply bind_Returned in H as (t & h0 & Ht & H).
  apply get_tensor_inv in Ht as [-> Hsrc].
  destruct T as [s n o|s dims o].
  - injection H as <- <-. split; [apply fresh_unused|].
    intros a Ha Hs. rewrite lookup_insert_ne by congruence.
    apply insert_fresh_frame, Hs.
  - apply bind_Returned in H as (l & h0 & Hr & H).
    apply read_elems_inv in Hr as ->.
    unfold alloc in H. unfold_M. injection H as <- <-.
    set (h1 := <[fresh (dom h) := Buffer l]> h).
    pose proof (fresh_unused h1) as Hf.
    apply lookup_insert_None in Hf as [Hf _]. split; [exact Hf|].
    intros a _ Hs. rewrite insert_fresh_frame.
    + apply insert_fresh_frame, Hs.
    + unfold h1. rewrite insert_fresh_frame; assumption.
Qed.

Lemma cast_impl_frame T c src p parent h r h' :
  type_caster.cast_impl T c src p parent h = Returned r h' →
  (∀ a, a ≠ src → is_Some (h !! a) → h' !! a = h !! a)
  ∧ (p ≠ move → h' !! src = h !! src).
Proof.
  rewrite cast_impl_unfold. intros H.
  assert (Hg : ∀ s h0 t h1, get_tensor s h0 = Returned t h1 → h1 = h0).
  { intros s h0 t h1 E. apply get_tensor_inv in E as [-> _]. reflexivity. }
  assert (Hfin : ∀ po w,
    finish T get_tensor src po w h = Returned r h' →
    (∀ a, a ≠ src → is_Some (h !! a) → h' !! a = h !! a)
    ∧ (p ≠ move → h' !! src = h !! src)).
  { intros po w E. pose proof (finish_frame _ _ _ _ _ _ _ _ (Hg src) E) as Hfr.
    split; [intros a _; apply Hfr|]. intros _. apply Hfr.
    unfold finish in E. apply bind_Returned in E as (t & h1 & Et & _).
    apply get_tensor_inv in Et as [_ Et]. rewrite Et. eauto. }
  destruct p; try discriminate; try (destruct c; [discriminate|]);
    try (eapply Hfin; eassumption).
  apply bind_Returned in H as (q & h1 & Hm & H).
  apply move_construct_frame in Hm as [Hq Hm].
  pose proof (finish_frame _ _ _ _ _ _ _ _ (Hg q) H) as Hfr.
  split; [|congruence]. intros a Ha Hs.
  rewrite Hfr; [apply Hm; assumption|]. rewrite Hm; assumption.
Qed.

Lemma std_array_eq_refl (x : list Z) : std_array_eq x x = true.
Proof. apply std_array_eq_iff. reflexivity. Qed.

Lemma is_correct_shape_get_shape T t :
  is_correct_shape T (get_shape T t) = true.
Proof. destruct T; simpl; [reflexivity | apply std_array_eq_refl]. Qed.

Lemma load_accepts T self a convert h t0 elems :
  index_values (Index T) (shape a) →
  h !! self = Some (TensorObj t0) → elements h a = Some elems →
  ndim a = NumIndices T → is_correct_shape T (shape a) = true →
  type_caster.load T self a convert h
  = Returned true
      (<[self := TensorObj (mk_tensor (shape a) (Some (fresh (dom h))))]>
         (<[fresh (dom h) := Buffer elems]> h)).
Proof.
  intros Hiv Hself Hel Hn Hs.
  destruct (load_converted T self a convert h) as (_ & _ & _ & Hacc).
  rewrite (narrowed_id T a Hiv) in Hacc. eapply Hacc; eassumption.
Qed.

Lemma move_construct_data T src h q h1 t t' :
  type_caster.move_construct T src h = Returned q h1 →
  h !! src = Some (TensorObj t) → h1 !! q = Some (TensorObj t') →
  m_data t' = m_data t ∨ ∃ b, m_data t' = Some b ∧ h !! b = None.
Proof.
  unfold type_caster.move_construct, get_tensor. unfold_M.
  intros H Hs. rewrite Hs in H. destruct T as [s n o ix|s dims o ix].
  - unfold alloc, write in H. injection H as <- <-.
    rewrite lookup_insert_ne by (intros E; symmetry in E; revert E;
                                 eapply fresh_ne; eassumption).
    rewrite lookup_insert_eq. intros [= <-]. left; reflexivity.
  - destruct (read_elems (m_data t) (numel dims) h) as [l h0| |] eqn:Hr;
      try discriminate.
    apply read_elems_inv in Hr as ->.
    unfold alloc in H. injection H as <- <-.
    rewrite lookup_insert_eq. intros [= <-]. right.
    exists (fresh (dom h)). split; [reflexivity | apply fresh_unused].
Qed.

Lemma cast_impl_spec T c src p parent h t elems r h' :
  h !! src = Some (TensorObj t) → tensor_elements T h t = Some elems →
  type_caster.cast_impl T c src p parent h = Returned r h' →
  shape r = get_shape T t ∧ dtype_ r = Scalar T
  ∧ has_layout r (Layout T) = true ∧ elements h' r = Some elems
  ∧ match p with
    | copy =>
        base r = no_owner ∧ h !! data r = None
        ∧ h' = <[data r := Buffer elems]> h
    | take_ownership =>
        base r = capsule src plain_delete ∧ h' = h ∧ m_data t = Some (data r)
    | reference => base r = none_object ∧ h' = h ∧ m_data t = Some (data r)
    | reference_internal =>
        base r = reinterpret_borrow parent
        ∧ (parent ≠ None → h' = h ∧ m_data t = Some (data r))
        ∧ (parent = None →
           h !! data r = None ∧ h' = <[data r := Buffer elems]> h)
    | move =>
        ∃ q t', h !! q = None ∧ base r = capsule q aligned_destroy
                ∧ h' !! q = Some (TensorObj t') ∧ m_data t' = Some (data r)
                ∧ match T with
                  | Tensor _ n _ _ =>
                      t' = t
                      ∧ m_data t = Some (data r)
                      ∧ h' = <[src := TensorObj (mk_tensor (replicate n 0)
                                                   None)]>
                               (<[q := TensorObj t]> h)
                  | TensorFixedSize _ dims _ _ =>
                      h !! data r = None
                      ∧ data r ≠ q
                      ∧ m_data t ≠ Some (data r)
                      ∧ t' = mk_tensor dims (Some (data r))
                      ∧ h' = <[q := TensorObj t']>
                               (<[data r := Buffer elems]> h)
                  end
    | _ => False
    end.
Proof.
  intros Hs He. rewrite cast_impl_unfold.
  assert (Hg : get_tensor src h = Returned t h).
  { unfold get_tensor. rewrite Hs. reflexivity. }
  destruct p; try discriminate; try (destruct c; [discriminate|]); intros H.
  - destruct (finish_spec _ _ _ _ _ _ _ _ _ _ Hg He H)
      as (? & ? & ? & _ & ? & ? & Ha & _).
    destruct Ha as [-> ?]; [discriminate|]. repeat split; assumption.
  - destruct (finish_spec _ _ _ _ _ _ _ _ _ _ Hg He H)
      as (? & ? & ? & _ & ? & ? & _ & Hc).
    destruct (Hc eq_refl) as [? ->]. repeat split; assumption.
  - assert (H' : type_caster.cast_impl T false src move parent h
                 = Returned r h') by (rewrite cast_impl_unfold; exact H).
    apply bind_Returned in H as (q & h1 & Hm & H).
    destruct (move_construct_valid T src h t elems Hs He)
      as (q0 & h0 & t' & Hm' & Hfresh & Hq & Hshape & He' & _).
    rewrite Hm in Hm'. injection Hm' as <- <-.
    assert (Hg' : get_tensor q h1 = Returned t' h1).
    { unfold get_tensor. rewrite Hq. reflexivity. }
    destruct (finish_spec _ _ _ _ _ _ _ _ _ _ Hg' He' H)
      as (? & ? & ? & _ & ? & ? & _ & _).
    destruct (cast_impl_move_exact T src parent h t elems Hs He)
      as (r0 & h0 & q0 & t0 & Hc & F1 & F2 & F3 & F4 & _ & _ & _ & F5).
    rewrite H' in Hc. injection Hc as <- <-.
    repeat split; try assumption; try congruence. exists q0, t0.
    repeat split; assumption.
  - destruct (finish_spec _ _ _ _ _ _ _ _ _ _ Hg He H)
      as (? & ? & ? & _ & ? & ? & Ha & _).
    destruct Ha as [-> ?]; [discriminate|]. repeat split; assumption.
  - destruct (finish_spec _ _ _ _ _ _ _ _ _ _ Hg He H)
      as (? & ? & ? & _ & ? & ? & Ha & Hc).
    destruct parent as [o|]; simpl in *.
    + destruct Ha as [-> ?]; [discriminate|].
      repeat split; try assumption; congruence.
    + destruct (Hc eq_refl) as [? ->].
      repeat split; try assumption; congruence.
Qed.

(** X1: a cast that returns, of an owning tensor or of a tensor map, leaves
    every object and buffer that existed before as it was, the source
    object of an owning cast under [move] apart; a cast only ever adds
    cells. *)
Theorem cast_preserves_memory
    (T : tensor_type) (cat : value_category) (c : bool) (src : positive)
    (p : return_value_policy) (parent : handle) (h h' : store) (r : array) :
  (type_caster.cast T cat c src p parent h = Returned r h' →
   (∀ a, a ≠ src → is_Some (h !! a) → h' !! a = h !! a)
   ∧ (policy_in_effect cat p ≠ move → h' !! src = h !! src))
  ∧ (type_caster_map.cast T cat c src p parent h = Returned r h' →
     ∀ a, is_Some (h !! a) → h' !! a = h !! a).
Proof.
  split.
  - intros H. apply cast_in_effect in H. eapply cast_impl_frame; eassumption.
  - rewrite cast_map_unfold, cast_map_impl_unfold. intros H.
    assert (Hg : ∀ h0 t h1, get_tensor_map src h0 = Returned t h1 → h1 = h0).
    { intros h0 t h1 E. apply get_tensor_map_inv in E as [-> _]. reflexivity. }
    destruct (effective_policy cat p); try discriminate;
      eapply finish_frame; eassumption.
Qed.

Lemma cast_preserves_memory_witness :
  <[3%positive := TensorObj ex_tensor]>
    (<[ex_self := TensorObj (mk_tensor [0; 0] None)]> ex_store_tensor)
    !! 2%positive
  = ex_store_tensor !! 2%positive.
Proof.
  destruct (cast_preserves_memory ex_dynamic lvalue false ex_self move None
              ex_store_tensor
              (<[3%positive := TensorObj ex_tensor]>
                 (<[ex_self := TensorObj (mk_tensor [0; 0] None)]>
                    ex_store_tensor))
              (mk_array (Z.lor c_style NPY_ARRAY_WRITEABLE_) float32 [2; 3]
                 2%positive (capsule 3%positive aligned_destroy)))
    as [Hown _].
  destruct Hown as [Hframe _]; [vm_compute; reflexivity|].
  apply Hframe; [discriminate | eexists; reflexivity].
Defined.

(** X2: the lifetime binding of the array a cast of a usable owning tensor
    returns, and the effect of the cast on memory, by the policy in effect.
    Under [copy] the array is bound to nothing and its data pointer
    addresses a new buffer holding the elements, the only change to memory.
    Under [take_ownership] it is bound to a capsule that holds the source
    pointer itself with the plain [delete] destructor, under [reference] to
    the [None] object, under [reference_internal] to the parent: in these
    three cases memory is unchanged and the data pointer is the tensor's
    own, except that with a null parent [reference_internal] has nothing to
    bind to and copies as [copy] does.  Under [move] it is bound to a
    capsule with the aligned destructor over a tensor object at an address
    unused before, whose data pointer is the array's: for a dynamic tensor
    that object has taken the source's buffer and the source object is left
    empty, the only two changes to memory; for a fixed-size tensor it holds
    a copy of the elements in a buffer at an address unused before, and the
    source and its buffer are as they were. *)
Theorem cast_lifetime_binding
    (T : tensor_type) (cat : value_category) (c : bool) (src : positive)
    (p : return_value_policy) (parent : handle) (h h' : store) (r : array)
    (t : tensor) (elems : list Z) :
  h !! src = Some (TensorObj t) →
  tensor_elements T h t = Some elems →
  type_caster.cast T cat c src p parent h = Returned r h' →
  match policy_in_effect cat p with
  | copy =>
      base r = no_owner ∧ h !! data r = None
      ∧ h' = <[data r := Buffer elems]> h
  | take_ownership =>
      base r = capsule src plain_delete ∧ h' = h ∧ m_data t = Some (data r)
  | reference => base r = none_object ∧ h' = h ∧ m_data t = Some (data r)
  | reference_internal =>
      base r = reinterpret_borrow parent
      ∧ (parent ≠ None → h' = h ∧ m_data t = Some (data r))
      ∧ (parent = None →
         h !! data r = None ∧ h' = <[data r := Buffer elems]> h)
  | move =>
      ∃ q t', h !! q = None ∧ base r = capsule q aligned_destroy
              ∧ h' !! q = Some (TensorObj t') ∧ m_data t' = Some (data r)
              ∧ match T with
                | Tensor _ n _ _ =>
                    t' = t
                    ∧ m_data t = Some (data r)
                    ∧ h' = <[src := TensorObj (mk_tensor (replicate n 0)
                                                 None)]>
                             (<[q := TensorObj t]> h)
                | TensorFixedSize _ dims _ _ =>
                    h !! data r = None
                    ∧ data r ≠ q
                    ∧ m_data t ≠ Some (data r)
                    ∧ t' = mk_tensor dims (Some (data r))
                    ∧ h' = <[q := TensorObj t']>
                             (<[data r := Buffer elems]> h)
                end
  | _ => False
  end.
Proof.
  intros Hs He H. apply cast_in_effect in H.
  apply (cast_impl_spec _ _ _ _ _ _ _ _ _ _ Hs He H).
Qed.

Lemma cast_lifetime_binding_witness :
  base (mk_array (Z.lor c_style NPY_ARRAY_WRITEABLE_) float32 [2; 3]
          2%positive (capsule ex_self plain_delete))
  = capsule ex_self plain_delete
  ∧ ex_store_tensor = ex_store_tensor
  ∧ m_data ex_tensor = Some 2%positive.
Proof.
  exact (cast_lifetime_binding ex_dynamic pointer false ex_self automatic None
           ex_store_tensor ex_store_tensor
           (mk_array (Z.lor c_style NPY_ARRAY_WRITEABLE_) float32 [2; 3]
              2%positive (capsule ex_self plain_delete))
           ex_tensor [1; 2; 3; 4; 5; 6] eq_refl eq_refl eq_refl).
Defined.

(** X3: the array a cast of an owning tensor returns is one the loaders of
    the same tensor type accept: for a usable source whose shape has
    [NumIndices] entries, the array has the element type [Scalar], the
    layout flag of the tensor type, rank [NumIndices], the shape of the
    source, which [is_correct_shape] accepts, and the elements of the
    source. *)
Theorem cast_result_well_formed
    (T : tensor_type) (cat : value_category) (c : bool) (src : positive)
    (p : return_value_policy) (parent : handle) (h h' : store) (r : array)
    (t : tensor) (elems : list Z) :
  h !! src = Some (TensorObj t) →
  tensor_elements T h t = Some elems →
  length (get_shape T t) = NumIndices T →
  type_caster.cast T cat c src p parent h = Returned r h' →
  dtype_ r = Scalar T
  ∧ has_layout r (Layout T) = true
  ∧ ndim r = NumIndices T
  ∧ shape r = get_shape T t
  ∧ is_correct_shape T (shape r) = true
  ∧ elements h' r = Some elems.
Proof.
  intros Hs He Hlen H. apply cast_in_effect in H.
  destruct (cast_impl_spec _ _ _ _ _ _ _ _ _ _ Hs He H)
    as (Hsh & Hd & Hl & Hel & _).
  unfold ndim. rewrite Hsh. repeat split; try assumption.
  apply is_correct_shape_get_shape.
Qed.

Lemma cast_result_well_formed_witness :
  elements ex_store_tensor
    (mk_array c_style float32 [2; 3] 2%positive none_object)
  = Some [1; 2; 3; 4; 5; 6].
Proof.
  apply (cast_result_well_formed ex_fixed lvalue true ex_self reference None
           ex_store_tensor ex_store_tensor
           (mk_array c_style float32 [2; 3] 2%positive none_object)
           ex_tensor [1; 2; 3; 4; 5; 6]);
    reflexivity.
Defined.

(** X4: casting composes with the map load.  The extents of a tensor are
    stored in its index type, so they are values of it; the array any cast
    of such a usable owning tensor returns passes the four tests of the map
    load of the same tensor type, whatever the accessor [mutable_data] does:
    the
    load is never answered with [false], and its outcome is that of the
    accessor followed by the construction of a map of the tensor's shape
    over the pointer the accessor hands out.  Under [reference] and
    [take_ownership] the array's data pointer is the tensor's own and the
    cast has changed nothing in memory, so a map over it views the tensor's
    buffer without any copy on the way. *)
Theorem cast_then_load_map
    (md : array → M positive)
    (T : tensor_type) (cat : value_category) (c : bool) (src : positive)
    (p : return_value_policy) (parent : handle) (h h' : store) (r : array)
    (t : tensor) (elems : list Z) (convert : bool) :
  h !! src = Some (TensorObj t) →
  tensor_elements T h t = Some elems →
  length (get_shape T t) = NumIndices T →
  index_values (Index T) (get_shape T t) →
  type_caster.cast T cat c src p parent h = Returned r h' →
  rejected (type_caster_map.load_with md T r convert h') = false
  ∧ type_caster_map.load_with md T r convert h'
    = (ptr ← md r;
       v ← alloc (TensorMapObj (mk_tensor (get_shape T t) (Some ptr)));
       ret (true, Some v)) h'
  ∧ (policy_in_effect cat p = reference
     ∨ policy_in_effect cat p = take_ownership →
     h' = h ∧ m_data t = Some (data r)).
Proof.
  intros Hs He Hlen Hiv H. apply cast_in_effect in H.
  destruct (cast_impl_spec _ _ _ _ _ _ _ _ _ _ Hs He H)
    as (Hsh & Hd & Hl & Hel & Hpol).
  assert (Hn : ndim r = NumIndices T) by (unfold ndim; congruence).
  assert (Hid : narrowed T r = r).
  { apply narrowed_id. rewrite Hsh. exact Hiv. }
  assert (Hok : is_correct_shape T (shape (narrowed T r)) = true).
  { rewrite Hid, Hsh. apply is_correct_shape_get_shape. }
  split; [|split].
  - rewrite load_with_rejected, Hl, (index_take T r Hn), Hok.
    rewrite bool_decide_eq_true_2 by assumption.
    apply Nat.eqb_eq in Hn. rewrite Hn. reflexivity.
  - rewrite (load_with_passes md T r convert h' Hl Hd Hn Hok), Hid, Hsh.
    reflexivity.
  - intros [E|E]; rewrite E in Hpol; tauto.
Qed.

Lemma cast_then_load_map_witness :
  type_caster_map.load ex_dynamic
    (mk_array (Z.lor c_style NPY_ARRAY_WRITEABLE_) float32 [2; 3]
       2%positive none_object) true ex_store_tensor
  = Returned (true, Some 3%positive)
      (<[3%positive := TensorMapObj (mk_tensor [2; 3] (Some 2%positive))]>
         ex_store_tensor).
Proof.
  destruct (cast_then_load_map type_caster_map.mutable_data
              ex_dynamic lvalue false ex_self reference None
              ex_store_tensor ex_store_tensor
              (mk_array (Z.lor c_style NPY_ARRAY_WRITEABLE_) float32 [2; 3]
                 2%positive none_object)
              ex_tensor [1; 2; 3; 4; 5; 6] true eq_refl eq_refl eq_refl
              ex_tensor_index_values eq_refl) as (_ & Hload & _).
  unfold type_caster_map.load. rewrite Hload. vm_compute. reflexivity.
Defined.

(** X5: casting composes with the owning load.  The extents of a tensor
    are stored in its index type, so they are values of it; the array any
    cast of such a usable owning tensor returns is accepted by the owning load of the same
    tensor type, and the tensor loaded from it has the shape and the
    elements of the tensor that was cast, in a buffer that did not exist
    before the load. *)
Theorem cast_then_load_owning
    (T : tensor_type) (cat : value_category) (c : bool) (src : positive)
    (p : return_value_policy) (parent : handle) (h h' : store) (r : array)
    (t t0 : tensor) (elems : list Z) (self : positive) (convert : bool) :
  h !! src = Some (TensorObj t) →
  tensor_elements T h t = Some elems →
  length (get_shape T t) = NumIndices T →
  index_values (Index T) (get_shape T t) →
  type_caster.cast T cat c src p parent h = Returned r h' →
  h' !! self = Some (TensorObj t0) →
  ∃ b h'',
    type_caster.load T self r convert h' = Returned true h''
    ∧ h' !! b = None
    ∧ h'' !! self = Some (TensorObj (mk_tensor (get_shape T t) (Some b)))
    ∧ h'' !! b = Some (Buffer elems).
Proof.
  intros Hs He Hlen Hiv H Hself. apply cast_in_effect in H.
  destruct (cast_impl_spec _ _ _ _ _ _ _ _ _ _ Hs He H)
    as (Hsh & Hd & Hl & Hel & _).
  assert (Hb : fresh (dom h') ≠ self) by (eapply fresh_ne; eassumption).
  exists (fresh (dom h')). eexists. split.
  - apply (load_accepts T self r convert h' t0 elems); try assumption.
    + rewrite Hsh. exact Hiv.
    + unfold ndim. congruence.
    + rewrite Hsh. apply is_correct_shape_get_shape.
  - rewrite Hsh. repeat split.
    + apply fresh_unused.
    + apply lookup_insert_eq.
    + rewrite lookup_insert_ne by congruence. apply lookup_insert_eq.
Qed.

Lemma cast_then_load_owning_witness :
  ∃ b h'',
    type_caster.load ex_dynamic ex_self
      (mk_array (Z.lor c_style NPY_ARRAY_WRITEABLE_) float32 [2; 3]
         2%positive none_object) true ex_store_tensor
    = Returned true h''
    ∧ ex_store_tensor !! b = None
    ∧ h'' !! ex_self = Some (TensorObj (mk_tensor [2; 3] (Some b)))
    ∧ h'' !! b = Some (Buffer [1; 2; 3; 4; 5; 6]).
Proof.
  apply (cast_then_load_owning ex_dynamic lvalue false ex_self reference None
           ex_store_tensor ex_store_tensor
           (mk_array (Z.lor c_style NPY_ARRAY_WRITEABLE_) float32 [2; 3]
              2%positive none_object)
           ex_tensor ex_tensor [1; 2; 3; 4; 5; 6] ex_self true);
    first [reflexivity | exact ex_tensor_index_values].
Defined.

(** X6: true aliasing.  Under [reference] and [take_ownership], and under
    [reference_internal] with a parent, the array a cast of a usable owning
    tensor returns shares the tensor's buffer: the cast changes nothing in
    memory, and in every later state of memory the elements of the array
    are the elements of the tensor, so a write through either is seen
    through the other. *)
Theorem cast_reference_aliases
    (T : tensor_type) (cat : value_category) (c : bool) (src : positive)
    (p : return_value_policy) (parent : handle) (h h' : store) (r : array)
    (t : tensor) (elems : list Z) :
  h !! src = Some (TensorObj t) →
  tensor_elements T h t = Some elems →
  type_caster.cast T cat c src p parent h = Returned r h' →
  policy_in_effect cat p = reference
  ∨ policy_in_effect cat p = take_ownership
  ∨ (policy_in_effect cat p = reference_internal ∧ parent ≠ None) →
  h' = h
  ∧ m_data t = Some (data r)
  ∧ ∀ h'' : store, elements h'' r = tensor_elements T h'' t.
Proof.
  intros Hs He H Hpol. apply cast_in_effect in H.
  destruct (cast_impl_spec _ _ _ _ _ _ _ _ _ _ Hs He H)
    as (Hsh & _ & _ & _ & Hcase).
  assert (Hal : h' = h ∧ m_data t = Some (data r)).
  { destruct Hpol as [E|[E|[E Hp]]]; rewrite E in Hcase; tauto. }
  destruct Hal as [-> Hd]. repeat split; try assumption.
  intros h''. unfold elements, tensor_elements. rewrite Hd, Hsh. reflexivity.
Qed.

Lemma cast_reference_aliases_witness :
  elements (<[2%positive := Buffer [9; 2; 3; 4; 5; 6]]> ex_store_tensor)
    (mk_array (Z.lor c_style NPY_ARRAY_WRITEABLE_) float32 [2; 3]
       2%positive none_object)
  = tensor_elements ex_dynamic
      (<[2%positive := Buffer [9; 2; 3; 4; 5; 6]]> ex_store_tensor) ex_tensor.
Proof.
  destruct (cast_reference_aliases ex_dynamic lvalue false ex_self reference
              None ex_store_tensor ex_store_tensor
              (mk_array (Z.lor c_style NPY_ARRAY_WRITEABLE_) float32 [2; 3]
                 2%positive none_object)
              ex_tensor [1; 2; 3; 4; 5; 6] eq_refl eq_refl eq_refl
              (or_introl eq_refl)) as (_ & _ & Hsame).
  apply Hsame.
Defined.

(** X7: independence under [copy].  The array a cast with [copy] in effect
    returns has a buffer that did not exist before; the source tensor and
    its buffer are as they were; overwriting the array's buffer leaves the
    elements of the tensor unchanged, and overwriting the tensor's buffer
    leaves the elements of the array unchanged. *)
Theorem cast_copy_independent
    (T : tensor_type) (cat : value_category) (c : bool) (src : positive)
    (p : return_value_policy) (parent : handle) (h h' : store) (r : array)
    (t : tensor) (elems : list Z) :
  h !! src = Some (TensorObj t) →
  tensor_elements T h t = Some elems →
  type_caster.cast T cat c src p parent h = Returned r h' →
  policy_in_effect cat p = copy →
  h !! data r = None
  ∧ h' !! src = Some (TensorObj t)
  ∧ m_data t ≠ Some (data r)
  ∧ (∀ l, tensor_elements T (<[data r := Buffer l]> h') t = Some elems)
  ∧ (∀ q l, m_data t = Some q →
            elements (<[q := Buffer l]> h') r = Some elems).
Proof.
  intros Hs He H Hpol. apply cast_in_effect in H.
  destruct (cast_impl_spec _ _ _ _ _ _ _ _ _ _ Hs He H)
    as (Hsh & _ & _ & Hel & Hcase).
  rewrite Hpol in Hcase. destruct Hcase as (_ & Hfresh & ->).
  destruct (tensor_elements_inv _ _ _ _ He) as (q & l0 & Hq & Hl & Hn & Hels).
  assert (Hne : q ≠ data r) by congruence.
  assert (Hsrc : src ≠ data r) by congruence.
  repeat split.
  - assumption.
  - rewrite lookup_insert_ne by congruence. assumption.
  - congruence.
  - intros l. unfold tensor_elements. rewrite Hq.
    rewrite !lookup_insert_ne by congruence. rewrite Hl.
    apply Nat.leb_le in Hn. rewrite Hn. congruence.
  - intros q' l Hq'. assert (q' = q) by congruence. subst q'.
    unfold elements in *. rewrite lookup_insert_ne by congruence. exact Hel.
Qed.

Lemma cast_copy_independent_witness :
  ex_store_tensor !! 3%positive = None
  ∧ tensor_elements ex_dynamic
      (<[3%positive := Buffer [9; 9; 9; 9; 9; 9]]>
         (<[3%positive := Buffer [1; 2; 3; 4; 5; 6]]> ex_store_tensor))
      ex_tensor
    = Some [1; 2; 3; 4; 5; 6].
Proof.
  assert (Hc : type_caster.cast ex_dynamic lvalue true ex_self automatic None
                 ex_store_tensor
               = Returned
                   (mk_array (Z.lor c_style NPY_ARRAY_WRITEABLE_) float32
                      [2; 3] 3%positive no_owner)
                   (<[3%positive := Buffer [1; 2; 3; 4; 5; 6]]>
                      ex_store_tensor))
    by (vm_compute; reflexivity).
  destruct (cast_copy_independent ex_dynamic lvalue true ex_self automatic None
              ex_store_tensor _ _ ex_tensor [1; 2; 3; 4; 5; 6]
              eq_refl eq_refl Hc eq_refl) as (Hf & _ & _ & Ht & _).
  split; [exact Hf | apply (Ht [9; 9; 9; 9; 9; 9])].
Defined.

(** X8: for a dynamic tensor type the shape check never rejects: the
    owning load answers [false] exactly when the rank of the array differs
    from [NumIndices], whatever the extents, and for a caster whose [value]
    exists and an array whose buffer can be read, every array of that rank
    whose extents are values of the index type is loaded. *)
Theorem load_dynamic_checks_rank_only
    (s : dtype) (n : nat) (o : layout) (ix : index_type) (self : positive)
    (a : array) (convert : bool) (h : store) :
  (type_caster.load (Tensor s n o ix) self a convert h = Returned false h
   ↔ ndim a ≠ n)
  ∧ (∀ t0 elems,
       h !! self = Some (TensorObj t0) → elements h a = Some elems →
       ndim a = n → index_values ix (shape a) →
       ∃ h', type_caster.load (Tensor s n o ix) self a convert h
             = Returned true h').
Proof.
  split.
  - unfold type_caster.load, type_caster.load_with, type_caster.array_t_of.
    unfold_M. cbn [NumIndices is_correct_shape].
    destruct (Nat.eqb_spec (ndim a) n) as [Hn|Hn]; cbn [negb].
    + split; [|congruence]. intros H. exfalso.
      unfold type_caster.assign_from_map in H. unfold_M.
      destruct (get_tensor self h) as [? ?| |]; try discriminate.
      destruct (read_elems _ _ _) as [? ?| |]; try discriminate.
    + split; auto.
  - intros t0 elems Hself Hel Hn Hiv. eexists.
    apply (load_accepts (Tensor s n o ix) self a convert h t0 elems);
      auto.
Qed.

Lemma load_dynamic_checks_rank_only_witness :
  ∃ h', type_caster.load ex_dynamic ex_self ex_array true ex_store
        = Returned true h'.
Proof.
  destruct (load_dynamic_checks_rank_only float32 2 RowMajor DenseIndex
              ex_self ex_array true ex_store) as [_ Hok].
  apply (Hok (mk_tensor [0; 0] None) [1; 2; 3; 4; 5; 6]);
    first [reflexivity | exact ex_tensor_index_values].
Defined.

(** X9: what a successful owning load of an array whose extents are values
    of the tensor's index type establishes.  The caster's [value] is then a
    usable tensor: its shape is the array's and has [NumIndices]
    entries, its elements are the array's, their number is the product of
    the extents, and every cast of it that is not refused for its policy
    returns an array. *)
Theorem load_value_usable
    (T : tensor_type) (self : positive) (a : array) (convert : bool)
    (h h1 : store) :
  index_values (Index T) (shape a) →
  type_caster.load T self a convert h = Returned true h1 →
  ∃ t elems,
    h1 !! self = Some (TensorObj t)
    ∧ get_shape T t = shape a
    ∧ length (get_shape T t) = NumIndices T
    ∧ elements h a = Some elems
    ∧ tensor_elements T h1 t = Some elems
    ∧ length elems = numel (get_shape T t)
    ∧ ∀ cat c p parent,
        is_fatal (type_caster.cast T cat c self p parent h1) = false →
        ∃ r h2, type_caster.cast T cat c self p parent h1 = Returned r h2.
Proof.
  intros Hiv Hload.
  assert (Hn : ndim a = NumIndices T) by (eapply load_true_rank; eassumption).
  destruct (load_true_inv _ _ _ _ _ _ Hiv Hload)
    as (t0 & elems & b & Hs & Hself & Hel & Hb & ->).
  assert (Hlen := elements_length _ _ _ Hel).
  assert (Hbs : b ≠ self) by congruence.
  pose proof (get_shape_loaded T (shape a) (Some b) Hs) as Hsh.
  assert (Ht : tensor_elements T
                 (<[self := TensorObj (mk_tensor (shape a) (Some b))]>
                    (<[b := Buffer elems]> h))
                 (mk_tensor (shape a) (Some b)) = Some elems).
  { unfold tensor_elements; simpl.
    rewrite lookup_insert_ne by congruence. rewrite lookup_insert_eq.
    rewrite Hsh, Hlen, Nat.leb_refl. rewrite <- Hlen, firstn_all.
    reflexivity. }
  exists (mk_tensor (shape a) (Some b)), elems.
  repeat split; try assumption.
  - apply lookup_insert_eq.
  - rewrite Hsh. exact Hn.
  - rewrite Hsh. exact Hlen.
  - intros cat c p parent. rewrite cast_unfold.
    assert (Hv : valid_tensor T
                   (<[self := TensorObj (mk_tensor (shape a) (Some b))]>
                      (<[b := Buffer elems]> h)) self).
    { exists (mk_tensor (shape a) (Some b)), elems.
      split; [apply lookup_insert_eq | exact Ht]. }
    destruct cat; try (apply cast_impl_returns; exact Hv).
    destruct (bool_decide (p = reference) || bool_decide (p = reference_internal));
      [discriminate|]. apply cast_impl_returns; exact Hv.
Qed.

Lemma load_value_usable_witness :
  ∃ t elems,
    <[ex_self := TensorObj (mk_tensor [2; 3] (Some 3%positive))]>
      (<[3%positive := Buffer [1; 2; 3; 4; 5; 6]]> ex_store) !! ex_self
    = Some (TensorObj t)
    ∧ get_shape ex_fixed t = [2; 3]
    ∧ elements ex_store ex_array = Some elems
    ∧ length elems = numel (get_shape ex_fixed t).
Proof.
  destruct (load_value_usable ex_fixed ex_self ex_array true ex_store
              (<[ex_self := TensorObj (mk_tensor [2; 3] (Some 3%positive))]>
                 (<[3%positive := Buffer [1; 2; 3; 4; 5; 6]]> ex_store)))
    as (t & elems & H1 & H2 & _ & H3 & _ & H4 & _).
  - exact ex_tensor_index_values.
  - vm_compute. reflexivity.
  - exists t, elems. auto.
Defined.

(** X10: a successful owning load of an array whose extents are values of
    the tensor's index type, followed by any cast of the loaded value,
    never hands the caller's original buffer back: whatever the overload
    and the policy, [reference] included, the array returned has the
    elements of the original array at a data pointer different from the
    original's, and overwriting the original's buffer leaves them
    unchanged. *)
Theorem load_then_cast_never_aliases_original
    (T : tensor_type) (self : positive) (a : array) (convert : bool)
    (cat : value_category) (c : bool) (p : return_value_policy)
    (parent : handle) (h h1 h2 : store) (r : array) :
  index_values (Index T) (shape a) →
  type_caster.load T self a convert h = Returned true h1 →
  type_caster.cast T cat c self p parent h1 = Returned r h2 →
  data r ≠ data a
  ∧ elements h2 r = elements h a
  ∧ ∀ l, elements (<[data a := Buffer l]> h2) r = elements h a.
Proof.
  intros Hiv Hload Hcast.
  destruct (load_true_inv _ _ _ _ _ _ Hiv Hload)
    as (t0 & elems & b & Hs & Hself & Hel & Hb & ->).
  set (t := mk_tensor (shape a) (Some b)).
  set (h1 := <[self := TensorObj t]> (<[b := Buffer elems]> h)) in *.
  assert (Hlen := elements_length _ _ _ Hel).
  assert (Hbs : b ≠ self) by congruence.
  assert (Hda : ∃ la, h !! data a = Some (Buffer la)).
  { unfold elements in Hel.
    destruct (h !! data a) as [[la| |]|]; try discriminate. eauto. }
  destruct Hda as [la Hda].
  assert (Has : data a ≠ self) by congruence.
  assert (Hab : data a ≠ b) by congruence.
  assert (H1a : h1 !! data a = Some (Buffer la)).
  { unfold h1. rewrite !lookup_insert_ne by congruence. assumption. }
  assert (Hs1 : h1 !! self = Some (TensorObj t)) by apply lookup_insert_eq.
  assert (Ht : tensor_elements T h1 t = Some elems).
  { unfold tensor_elements, t; simpl. unfold h1.
    rewrite lookup_insert_ne by congruence. rewrite lookup_insert_eq.
    rewrite (get_shape_loaded T _ _ Hs), Hlen, Nat.leb_refl.
    rewrite <- Hlen, firstn_all. reflexivity. }
  apply cast_in_effect in Hcast.
  destruct (cast_impl_spec _ _ _ _ _ _ _ _ _ _ Hs1 Ht Hcast)
    as (_ & _ & _ & Helr & Hcase).
  assert (Hne : data r ≠ data a).
  { destruct (policy_in_effect cat p); try contradiction.
    - destruct Hcase as (_ & _ & Hd). simpl in Hd. congruence.
    - destruct Hcase as (_ & Hf & _). congruence.
    - destruct Hcase as (q & t' & _ & _ & _ & _ & Hkind).
      destruct T as [? ? ? ?|? ? ? ?].
      + destruct Hkind as (_ & Hd & _). simpl in Hd. congruence.
      + destruct Hkind as (Hf & _). congruence.
    - destruct Hcase as (_ & _ & Hd). simpl in Hd. congruence.
    - destruct Hcase as (_ & Hal & Hnull). destruct parent as [o|].
      + destruct Hal as [_ Hd]; [discriminate|]. simpl in Hd. congruence.
      + destruct (Hnull eq_refl) as [Hf _]. congruence. }
  rewrite Hel. repeat split; try assumption.
  intros l. unfold elements in *. rewrite lookup_insert_ne by congruence.
  assumption.
Qed.

Lemma load_then_cast_never_aliases_original_witness :
  data (mk_array c_style float32 [2; 3] 3%positive none_object)
  ≠ data ex_array.
Proof.
  assert (Hl : type_caster.load ex_fixed ex_self ex_array true ex_store
               = Returned true
                   (<[ex_self := TensorObj (mk_tensor [2; 3] (Some 3%positive))]>
                      (<[3%positive := Buffer [1; 2; 3; 4; 5; 6]]> ex_store)))
    by (vm_compute; reflexivity).
  assert (Hc : type_caster.cast ex_fixed lvalue true ex_self reference None
                 (<[ex_self := TensorObj (mk_tensor [2; 3] (Some 3%positive))]>
                    (<[3%positive := Buffer [1; 2; 3; 4; 5; 6]]> ex_store))
               = Returned
                   (mk_array c_style float32 [2; 3] 3%positive none_object)
                   (<[ex_self := TensorObj (mk_tensor [2; 3] (Some 3%positive))]>
                      (<[3%positive := Buffer [1; 2; 3; 4; 5; 6]]> ex_store)))
    by (vm_compute; reflexivity).
  destruct (load_then_cast_never_aliases_original ex_fixed ex_self ex_array
              true lvalue true reference None ex_store _ _ _
              ex_tensor_index_values Hl Hc) as [Hne _].
  exact Hne.
Defined.

Lemma load_map_true_inv T a convert h v h1 :
  index_values (Index T) (shape a) →
  type_caster_map.load T a convert h = Returned (true, v) h1 →
  has_layout a (Layout T) = true ∧ dtype_ a = Scalar T
  ∧ ndim a = NumIndices T ∧ is_correct_shape T (shape a) = true
  ∧ v = Some (fresh (dom h))
  ∧ h1 = <[fresh (dom h) := TensorMapObj (mk_tensor (shape a) (Some (data a)))]> h.
Proof.
  intros Hiv. unfold type_caster_map.load, type_caster_map.load_with.
  rewrite layout_test.
  destruct (has_layout a (Layout T)); cbn [negb]; [|discriminate].
  destruct (decide (dtype_ a = Scalar T)) as [Hd|Hd].
  2:{ rewrite bool_decide_eq_false_2 by assumption. discriminate. }
  rewrite bool_decide_eq_true_2 by assumption; cbn [negb].
  destruct (Nat.eqb_spec (ndim a) (NumIndices T)) as [Hn|Hn]; cbn [negb];
    [|discriminate].
  rewrite (index_take T a Hn), (narrowed_id T a Hiv).
  destruct (is_correct_shape T (shape a)) eqn:Hs; cbn [negb]; [|discriminate].
  intros [= <- <-]. auto 10.
Qed.

(** X11: the zero-copy round trip.  After the map load has accepted an
    array whose extents are values of the tensor's index type, casting the
    loaded map with [reference], or with
    [reference_internal] and a parent, through any overload returns an array
    with the shape, the element type and the very data pointer of the
    original array, and changes nothing in memory; it is writeable exactly
    when the map is not const.  No buffer is created on the way in or on
    the way out. *)
Theorem load_map_then_cast_round_trip
    (T : tensor_type) (a : array) (convert : bool) (v : positive)
    (cat : value_category) (c : bool) (p : return_value_policy)
    (parent : handle) (h h1 : store) :
  index_values (Index T) (shape a) →
  type_caster_map.load T a convert h = Returned (true, Some v) h1 →
  p = reference ∨ (p = reference_internal ∧ parent ≠ None) →
  (∀ x l, h1 !! x = Some (Buffer l) ↔ h !! x = Some (Buffer l))
  ∧ ∃ r,
      type_caster_map.cast T cat c v p parent h1 = Returned r h1
      ∧ shape r = shape a
      ∧ dtype_ r = dtype_ a
      ∧ data r = data a
      ∧ has_layout r (Layout T) = true
      ∧ writeable r = negb c
      ∧ base r = match p with
                 | reference => none_object
                 | _ => reinterpret_borrow parent
                 end.
Proof.
  intros Hiv Hload Hp.
  destruct (load_map_true_inv _ _ _ _ _ _ Hiv Hload)
    as (Hl & Hd & Hn & Hs & Hv & ->).
  injection Hv as ->.
  split.
  - intros x l. destruct (decide (x = fresh (dom h))) as [->|Hx].
    + rewrite lookup_insert_eq, fresh_unused. split; discriminate.
    + rewrite lookup_insert_ne by congruence. reflexivity.
  - rewrite cast_map_unfold.
    assert (Heff : effective_policy cat p = p).
    { destruct Hp as [->|[-> _]]; destruct cat; reflexivity. }
    rewrite Heff, cast_map_impl_unfold.
    assert (Hfin : ∀ po, po ≠ no_owner →
      finish T get_tensor_map (fresh (dom h)) po (negb c)
        (<[fresh (dom h) := TensorMapObj (mk_tensor (shape a) (Some (data a)))]> h)
      = Returned
          ((if negb (negb c) then clear_writeable else id)
             (mk_array (Z.lor (compute_array_flag_from_tensor T)
                          NPY_ARRAY_WRITEABLE_) (Scalar T) (shape a) (data a) po))
          (<[fresh (dom h) := TensorMapObj (mk_tensor (shape a) (Some (data a)))]> h)).
    { intros po Hpo. unfold finish, get_tensor_map. unfold_M.
      rewrite lookup_insert_eq. cbn [m_data].
      rewrite (get_shape_loaded T _ _ Hs).
      rewrite array_t_ctor_alias by assumption.
      destruct c; reflexivity. }
    destruct Hp as [->|[-> Hpar]].
    + rewrite Hfin by discriminate. eexists. split; [reflexivity|].
      destruct c; simpl; rewrite ?has_layout_clear, ?has_layout_new;
        repeat split; auto; try apply writeable_clear; apply writeable_new.
    + destruct parent as [o|]; [|congruence].
      rewrite Hfin by discriminate. eexists. split; [reflexivity|].
      destruct c; simpl; rewrite ?has_layout_clear, ?has_layout_new;
        repeat split; auto; try apply writeable_clear; apply writeable_new.
Qed.

Lemma load_map_then_cast_round_trip_witness :
  ∃ r,
    type_caster_map.cast ex_dynamic pointer true 3%positive reference None
      (<[3%positive := TensorMapObj (mk_tensor [2; 3] (Some 2%positive))]>
         ex_store)
    = Returned r
        (<[3%positive := TensorMapObj (mk_tensor [2; 3] (Some 2%positive))]>
           ex_store)
    ∧ shape r = shape ex_array
    ∧ data r = data ex_array
    ∧ writeable r = false.
Proof.
  assert (Hl : type_caster_map.load ex_dynamic ex_array true ex_store
               = Returned (true, Some 3%positive)
                   (<[3%positive := TensorMapObj (mk_tensor [2; 3] (Some 2%positive))]>
                      ex_store))
    by (vm_compute; reflexivity).
  destruct (load_map_then_cast_round_trip ex_dynamic ex_array true 3%positive
              pointer true reference None ex_store _ ex_tensor_index_values
              Hl (or_introl eq_refl))
    as (_ & r & Hr & Hs & _ & Hd & _ & Hw & _).
  exists r. auto.
Defined.

(** X12: the map load is the stricter of the two loads: every array whose
    extents are values of the tensor's index type and which it does not
    reject, whatever the accessor [mutable_data] does with it, is loaded by
    the owning load of the same tensor type into a caster whose [value]
    exists, when the array's buffer can be read. *)
Theorem map_accept_implies_owning_accept
    (md : array → M positive) (T : tensor_type) (a : array) (c1 c2 : bool)
    (self : positive) (h : store) (t0 : tensor) (elems : list Z) :
  index_values (Index T) (shape a) →
  rejected (type_caster_map.load_with md T a c1 h) = false →
  h !! self = Some (TensorObj t0) →
  elements h a = Some elems →
  ∃ h', type_caster.load T self a c2 h = Returned true h'.
Proof.
  intros Hiv. rewrite load_with_rejected. intros Hacc Hself Hel.
  apply negb_false_iff in Hacc.
  apply andb_true_iff in Hacc as [Hacc Hs].
  apply andb_true_iff in Hacc as [_ Hn].
  apply Nat.eqb_eq in Hn.
  rewrite (index_take T a Hn), (narrowed_id T a Hiv) in Hs.
  eexists. apply (load_accepts T self a c2 h t0 elems); assumption.
Qed.

Lemma map_accept_implies_owning_accept_witness :
  ∃ h', type_caster.load ex_dynamic ex_self ex_array false ex_store
        = Returned true h'.
Proof.
  apply (map_accept_implies_owning_accept type_caster_map.mutable_data
           ex_dynamic ex_array true false ex_self ex_store
           (mk_tensor [0; 0] None) [1; 2; 3; 4; 5; 6]);
    first [reflexivity | exact ex_tensor_index_values].
Defined.

(** X13: whether a cast ends in the exception of [pybind11_fail] is decided
    by the overload (value category and constness) and the policy alone:
    for both casters it is the same for every tensor type, source pointer,
    parent and state of memory. *)
Theorem fatal_decided_by_overload_and_policy
    (T1 T2 : tensor_type) (cat : value_category) (c : bool)
    (src1 src2 : positive) (p : return_value_policy)
    (parent1 parent2 : handle) (h1 h2 : store) :
  is_fatal (type_caster.cast T1 cat c src1 p parent1 h1)
  = is_fatal (type_caster.cast T2 cat c src2 p parent2 h2)
  ∧ is_fatal (type_caster_map.cast T1 cat c src1 p parent1 h1)
    = is_fatal (type_caster_map.cast T2 cat c src2 p parent2 h2).
Proof.
  split.
  - rewrite !cast_unfold. destruct cat; rewrite ?cast_impl_fatal; try reflexivity.
    destruct (bool_decide (p = reference) || bool_decide (p = reference_internal));
      [reflexivity|]. rewrite !cast_impl_fatal. reflexivity.
  - rewrite !cast_map_unfold, !cast_map_impl_unfold.
    destruct (effective_policy cat p); try reflexivity;
      rewrite !finish_not_fatal by (intros; apply get_tensor_map_not_fatal);
      reflexivity.
Qed.

(** X14: the fatal cases of the map caster, exactly: a cast of a tensor map
    ends in the exception of [pybind11_fail] if and only if the policy in
    effect is neither [reference] nor [reference_internal].  In particular
    the default policy [automatic] fails through every overload, and
    [automatic_reference] fails through every overload but the pointer
    ones; and a cast that is not refused returns an array when the map
    object exists and its buffer can be read. *)
Theorem cast_map_fatal_cases
    (T : tensor_type) (cat : value_category) (c : bool) (src : positive)
    (p : return_value_policy) (parent : handle) (h : store) :
  (is_fatal (type_caster_map.cast T cat c src p parent h) = true
   ↔ effective_policy cat p ≠ reference
     ∧ effective_policy cat p ≠ reference_internal)
  ∧ is_fatal (type_caster_map.cast T cat c src automatic parent h) = true
  ∧ (cat ≠ pointer →
     is_fatal (type_caster_map.cast T cat c src automatic_reference parent h)
     = true)
  ∧ (∀ t elems,
       h !! src = Some (TensorMapObj t) →
       tensor_elements T h t = Some elems →
       is_fatal (type_caster_map.cast T cat c src p parent h) = false →
       ∃ r h', type_caster_map.cast T cat c src p parent h = Returned r h').
Proof.
  rewrite !cast_map_unfold, !cast_map_impl_unfold.
  assert (Hnf : ∀ po w, is_fatal (finish T get_tensor_map src po w h) = false).
  { intros. apply finish_not_fatal. intros. apply get_tensor_map_not_fatal. }
  split; [split|split; [|split]].
  - destruct (effective_policy cat p); rewrite ?Hnf;
      (discriminate || (intros _; split; discriminate)).
  - destruct (effective_policy cat p); try reflexivity; intros [? ?];
      congruence.
  - destruct cat; reflexivity.
  - destruct cat; try reflexivity. congruence.
  - intros t elems Hs He.
    assert (Hfin : ∀ po w, ∃ r h',
               finish T get_tensor_map src po w h = Returned r h').
    { intros po w.
      destruct (tensor_elements_inv _ _ _ _ He) as (q & l & Hq & Hl & Hn & _).
      unfold finish, get_tensor_map. unfold_M. rewrite Hs, Hq.
      destruct (decide (po = no_owner)) as [->|Hpo].
      - rewrite (array_t_ctor_copy T _ q h l) by assumption. eauto.
      - rewrite array_t_ctor_alias by assumption. eauto. }
    destruct (effective_policy cat p); try discriminate; intros _;
      apply Hfin.
Qed.

Lemma cast_map_fatal_cases_witness :
  ∃ r h',
    type_caster_map.cast ex_dynamic pointer false ex_self automatic_reference
      None ex_store_map = Returned r h'.
Proof.
  destruct (cast_map_fatal_cases ex_dynamic pointer false ex_self
              automatic_reference None ex_store_map) as (_ & _ & _ & Hret).
  apply (Hret ex_tensor [1; 2; 3; 4; 5; 6]); reflexivity.
Defined.

(** ** The descriptor *)


Lemma string_length_app (s1 s2 : string) :
  String.length (s1 ++ s2) = (String.length s1 + String.length s2)%nat.
Proof. induction s1 as [|a s1 IH]; simpl; [reflexivity | rewrite IH; reflexivity]. Qed.

Lemma string_suffix_inj (p1 p2 s1 s2 : string) :
  (p1 ++ s1)%string = (p2 ++ s2)%string →
  String.length s1 = String.length s2 → s1 = s2.
Proof.
  revert p2. induction p1 as [|a p1 IH]; intros [|b p2] H Hlen.
  - exact H.
  - apply (f_equal String.length) in H.
    change (String.length s1 = S (String.length (p2 ++ s2))) in H.
    rewrite string_length_app in H. lia.
  - apply (f_equal String.length) in H.
    change (S (String.length (p1 ++ s1)) = String.length s2) in H.
    rewrite string_length_app in H. lia.
  - injection H as _ H. eapply IH; eassumption.
Qed.

(** X15: the descriptor of a tensor type agrees with what the loaders
    check.  It ends in [flags.c_contiguous] exactly when the flag the
    loaders test is [c_style], and in [flags.f_contiguous] exactly when it
    is [f_style]; its dimensions are joined from [NumIndices] entries; and
    for every shape [is_correct_shape] accepts they are that shape's extents
    for a fixed-size tensor and one [?] per extent for a dynamic one. *)
Theorem descriptor_matches_checks
    (concat : list string → string) (const_name_int : Z → string)
    (name : dtype → string) (T : tensor_type) :
  ((∃ pre, get_tensor_descriptor concat const_name_int name T
           = (pre ++ "flags.c_contiguous")%string)
   ↔ compute_array_flag_from_tensor T = c_style)
  ∧ ((∃ pre, get_tensor_descriptor concat const_name_int name T
             = (pre ++ "flags.f_contiguous")%string)
     ↔ compute_array_flag_from_tensor T = f_style)
  ∧ (∃ entries,
       dimensions_descriptor concat const_name_int T = concat entries
       ∧ length entries = NumIndices T)
  ∧ (∀ S, is_correct_shape T S = true → length S = NumIndices T →
          dimensions_descriptor concat const_name_int T
          = match T with
            | Tensor _ _ _ _ => concat (map (λ _, "?"%string) S)
            | TensorFixedSize _ _ _ _ => concat (map const_name_int S)
            end).
Proof.
  unfold get_tensor_descriptor, compute_array_flag_from_tensor.
  split; [|split; [|split]].
  - destruct (Layout T); split; try reflexivity; try discriminate; eauto.
    intros [pre H]. apply string_suffix_inj in H; [discriminate | reflexivity].
  - destruct (Layout T); split; try reflexivity; try discriminate; eauto.
    intros [pre H]. apply string_suffix_inj in H; [discriminate | reflexivity].
  - destruct T as [s n o ix|s dims o ix]; simpl; eexists; split; try reflexivity.
    + apply length_replicate.
    + apply length_map.
  - intros S Hs Hlen. destruct T as [s n o ix|s dims o ix]; simpl in *.
    + f_equal. subst n. clear. induction S; simpl; congruence.
    + apply std_array_eq_iff in Hs. subst. reflexivity.
Qed.

Lemma descriptor_matches_checks_witness :
  dimensions_descriptor (String.concat ", ") pretty ex_fixed
  = String.concat ", " (map pretty [2; 3]).
Proof.
  destruct (descriptor_matches_checks (String.concat ", ") pretty
              (λ _, "numpy.float32"%string) ex_fixed) as (_ & _ & _ & H).
  apply (H [2; 3]); reflexivity.
Defined.
